(** * Image resizer backend: validator, pipeline, store, catalog, sweeper

    A shallow embedding of the TypeScript backend of the image-processing
    service (utils/validation.ts, controllers/processor.ts,
    services/storage.ts, services/metadata.ts, middleware/upload.ts,
    routes/image.ts, server.ts), followed by the properties of the
    specification that were checked against it.

    Conventions of the embedding:
    - a [Buffer] is a [list byte]; a JavaScript string that is inspected
      character by character is a list of UTF-16 code units;
    - JavaScript numbers that hold sizes, times and pixel counts are [Z];
      crop coordinates, which the code rounds, are [Q];
    - an [ImageOperation] is a tagged union: the [type] tag selects the
      [params] that the casts of the processor read. The two loops that
      choose the output format are also given on the entries of a request
      body as they are at run time, where nothing ties [params] to
      [type];
    - the [Map] cache of the metadata store is a [gmap];
    - the disk below the upload directory is a tree of nodes, and every
      [fs] call is a function on that tree which returns the error code
      Node would raise; the working directory, where [logs] is made, is a
      second tree;
    - what a library does is an argument: the type sniffer, the image
      library and the rate limiter are functions or verdicts that the
      definitions are given;
    - [async] functions are run to completion: a rejected promise is a
      [Throw], and the clock value read by [Date.now()] is an argument. *)

From Stdlib Require Import ZArith QArith Qround Lia Lqa.
From stdpp Require Import gmap strings list fin_maps.

#[local] Open Scope Z_scope.

#[global] Instance byte_eq_dec : EqDecision Byte.byte := Byte.byte_eq_dec.

(** ** Errors and results *)

(** [AppError] of middleware/errorHandler.ts, and any other [Error]. *)
Inductive Error :=
| AppError (message : string) (statusCode : Z)
| OtherError (message : string).

(** [errorHandler]: [error.statusCode || 500]. *)
Definition statusOf (e : Error) : Z :=
  match e with
  | AppError _ statusCode => if bool_decide (statusCode = 0) then 500 else statusCode
  | OtherError _ => 500
  end.

Definition messageOf (e : Error) : string :=
  match e with
  | AppError message _ => message
  | OtherError message => message
  end.

Inductive result (A : Type) :=
| Ok (a : A)
| Throw (e : Error).
Arguments Ok {A} a.
Arguments Throw {A} e.

(** ** utils/config.ts *)

Record AppConfig := {
  maxFileSize : Z;
  allowedMimeTypes : list string;
  cleanupTtlHours : Z;
  cleanupIntervalHours : Z;
  maxDiskQuota : Z
}.

(** The values taken when the environment sets nothing. *)
Definition defaultConfig : AppConfig := {|
  maxFileSize := 52428800;
  allowedMimeTypes := ["image/jpeg"; "image/png"; "image/webp"; "image/gif"];
  cleanupTtlHours := 24;
  cleanupIntervalHours := 6;
  maxDiskQuota := 10737418240
|}.

(** ** utils/validation.ts *)

Module Validation.

Import Byte.

Definition MAGIC_BYTES : gmap string (list (list byte)) :=
  <["image/jpeg" := [[xff; xd8; xff]]]>
 (<["image/png"  := [[x89; x50; x4e; x47; x0d; x0a; x1a; x0a]]]>
 (<["image/webp" := [[x52; x49; x46; x46]]]>
 (<["image/gif"  := [[x47; x49; x46; x38]]]> ∅))).

(** The inner [for] loop: [buffer[i] !== signature[i]] for some
    [i < signature.length] clears [matches]. An index past the end of the
    buffer reads [undefined], which differs from every byte. *)
Definition signatureMatches (buffer signature : list byte) : bool :=
  forallb (fun i => bool_decide (buffer !! i = signature !! i))
          (seq 0 (length signature)).

Section WithSniffer.

(** [fromBuffer] of the file-type package, by what its promise resolves
    with: the detected MIME type, or [None] for [undefined]. A promise
    that rejects is dealt with where the function is awaited, in the
    upload handler. *)
Variable fromBuffer : list byte -> option string.
Variable config : AppConfig.

Definition validateFileSignature (buffer : list byte) : bool :=
  match fromBuffer buffer with
  | None => false
  | Some mime =>
      if negb (bool_decide (mime ∈ allowedMimeTypes config)) then false
      else
        match MAGIC_BYTES !! mime with
        | None => false
        | Some signatures => existsb (signatureMatches buffer) signatures
        end
  end.

End WithSniffer.

(** A UTF-16 code unit. *)
Definition codeUnit := N.

(** The character class [[a-zA-Z0-9._-]]. *)
Definition inClass (c : codeUnit) : bool :=
  ((97 <=? c) && (c <=? 122) || (65 <=? c) && (c <=? 90)
   || (48 <=? c) && (c <=? 57)
   || (c =? 46) || (c =? 95) || (c =? 45))%N.

Definition underscore : codeUnit := 95%N.

(** [filename.replace(/[^a-zA-Z0-9._-]/g, '_')] *)
Definition sanitizeFilename (filename : list codeUnit) : list codeUnit :=
  map (fun c => if inClass c then c else underscore) filename.

(** The code units of an ASCII literal, for examples. *)
Definition js (s : string) : list codeUnit :=
  map Ascii.N_of_ascii (String.list_ascii_of_string s).

End Validation.

(** ** types/index.ts *)

Inductive Fit := cover | contain | fill | inside | outside.

Inductive Format := jpeg | png | webp.

Record ResizeParams := {
  resize_width : option Z;
  resize_height : option Z;
  resize_fit : option Fit
}.

Record CropParams := {
  crop_x : Q;
  crop_y : Q;
  crop_width : Q;
  crop_height : Q
}.

Record ConvertParams := { format : Format }.

Record QualityParams := { quality : Z }.

(** [ImageOperation]: the [type] tag together with the [params] it selects;
    the casts [operation.params as ...] of the processor read the payload
    of the matching tag. *)
Inductive ImageOperation :=
| Resize (params : ResizeParams)
| Crop (params : CropParams)
| Convert (params : ConvertParams)
| Quality (params : QualityParams).

(** An entry of [operations] as the two loops that choose the output
    format meet it. The interface [ImageOperation] lists the [type]s and
    the kinds of [params] side by side without tying one to the other,
    and the request body is parsed JSON that is only annotated with it.
    Of an entry whose [params] is an object the loops read the [type] and
    the [format] property of [params]; [entry_format] is that property,
    a string, or [None] when [params] has none. *)
Record FormatEntry := {
  entry_type : string;
  entry_format : option string
}.

(** A path below the upload directory, one component per element. *)
Definition path := list string.

Record ImageMetadata := {
  fileId : string;
  originalName : string;
  size : Z;
  mimeType : string;
  rawPath : path;
  processedPath : option path;
  timestamp : Z;
  operations : option (list ImageOperation)
}.

#[global] Instance Fit_eq_dec : EqDecision Fit.
Proof. solve_decision. Defined.
#[global] Instance Format_eq_dec : EqDecision Format.
Proof. solve_decision. Defined.

(** ** controllers/processor.ts *)

Module ImageProcessor.

(** The calls chained on a [sharp] pipeline, in the order they are made. *)
Inductive SharpCall :=
| sharp_rotate
| sharp_resize (width height : option Z) (fit : Fit) (withoutEnlargement : bool)
| sharp_extract (left top width height : Z)
| sharp_jpeg (quality : Z) (mozjpeg : bool)
| sharp_png (quality : Z) (compressionLevel : Z)
| sharp_webp (quality : Z).

Definition Sharp := list SharpCall.

(** [Math.round]: the nearest integer, halves towards plus infinity. *)
Definition Math_round (x : Q) : Z := Qfloor (x + (1 # 2)).

Definition applyResize (pipeline : Sharp) (params : ResizeParams) : Sharp :=
  let fit := default cover (resize_fit params) in
  pipeline ++ [sharp_resize (resize_width params) (resize_height params) fit false].

Definition applyCrop (pipeline : Sharp) (params : CropParams) : Sharp :=
  pipeline ++ [sharp_extract (Math_round (crop_x params))
                             (Math_round (crop_y params))
                             (Math_round (crop_width params))
                             (Math_round (crop_height params))].

Definition applyOperation (pipeline : Sharp) (operation : ImageOperation) : Sharp :=
  match operation with
  | Resize params => applyResize pipeline params
  | Crop params => applyCrop pipeline params
  | Convert _ => pipeline
  | Quality _ => pipeline
  end.

(** The second loop of [processImage], one iteration: the state is the
    pair of the variables [outputFormat] and [quality]. *)
Definition extractSetting (st : Format * Z) (operation : ImageOperation) : Format * Z :=
  let st1 :=
    match operation with
    | Convert params => (format params, st.2)
    | _ => st
    end in
  match operation with
  | Quality params => (st1.1, quality params)
  | _ => st1
  end.

(** The [switch (outputFormat)]; on a [Format] its [default] branch is
    never taken. [encoderFormat] below is the [switch] on any value of
    [outputFormat], with that branch. *)
Definition applyOutputFormat (pipeline : Sharp) (outputFormat : Format) (quality : Z) : Sharp :=
  match outputFormat with
  | jpeg => pipeline ++ [sharp_jpeg quality true]
  | png => pipeline ++ [sharp_png quality 9]
  | webp => pipeline ++ [sharp_webp quality]
  end.

(** [processImage] up to the call of [toFile]: the pipeline that is run,
    and the two settings it was closed with. *)
Definition buildPipeline (operations : list ImageOperation) : Sharp * (Format * Z) :=
  let pipeline := [sharp_rotate] in
  let pipeline := foldl applyOperation pipeline operations in
  let '(outputFormat, quality) := foldl extractSetting (jpeg, 80) operations in
  (applyOutputFormat pipeline outputFormat quality, (outputFormat, quality)).

Definition pipelineOf (operations : list ImageOperation) : Sharp :=
  (buildPipeline operations).1.

Definition outputFormatOf (operations : list ImageOperation) : Format :=
  (buildPipeline operations).2.1.

Definition outputQualityOf (operations : list ImageOperation) : Z :=
  (buildPipeline operations).2.2.

(** The own properties of the object literal [formatMap]. *)
Definition formatMap : gmap string string :=
  <["jpeg" := "jpg"]> (<["png" := "png"]> (<["webp" := "webp"]> (<["gif" := "gif"]> ∅))).

(** The names that [formatMap], like every object literal, inherits from
    [Object.prototype]. *)
Definition Object_prototype : list string :=
  ["constructor"; "__defineGetter__"; "__defineSetter__"; "hasOwnProperty";
   "__lookupGetter__"; "__lookupSetter__"; "isPrototypeOf"; "propertyIsEnumerable";
   "toString"; "valueOf"; "__proto__"; "toLocaleString"].

(** What [getExtensionFromFormat] returns: a string, or, for a name that
    [formatMap] inherits, the member of [Object.prototype] of that name,
    which is a function or an object and so truthy. *)
Inductive Extension :=
| ext_string (s : string)
| ext_inherited (name : string).

(** [formatMap[format] || 'jpg'] *)
Definition getExtensionFromFormat (format : string) : Extension :=
  match formatMap !! format with
  | Some ext => if bool_decide (ext = "") then ext_string "jpg" else ext_string ext
  | None =>
      if bool_decide (format ∈ Object_prototype) then ext_inherited format
      else ext_string "jpg"
  end.

(** The text a template literal makes of such a value; for the inherited
    members it is the text V8 prints. *)
Definition templateText (extension : Extension) : string :=
  match extension with
  | ext_string s => s
  | ext_inherited name =>
      if bool_decide (name = "__proto__") then "[object Object]"
      else if bool_decide (name = "constructor") then "function Object() { [native code] }"
      else "function " +:+ name +:+ "() { [native code] }"
  end.

(** [`${uuidv4()}.${extension}`], the fresh identifier being an argument. *)
Definition generateFilename (uuid : string) (extension : Extension) : string :=
  uuid +:+ "." +:+ templateText extension.

(** The [format] strings of the request body. *)
Definition formatName (f : Format) : string :=
  match f with jpeg => "jpeg" | png => "png" | webp => "webp" end.

(** The [type] strings of the request body. *)
Definition typeName (operation : ImageOperation) : string :=
  match operation with
  | Resize _ => "resize"
  | Crop _ => "crop"
  | Convert _ => "convert"
  | Quality _ => "quality"
  end.

(** What these loops see of a well-formed operation. *)
Definition formatEntryOf (operation : ImageOperation) : FormatEntry :=
  {| entry_type := typeName operation;
     entry_format :=
       match operation with
       | Convert params => Some (formatName (format params))
       | _ => None
       end |}.

(** The first [if] of the second loop of [processImage] on such an entry:
    [outputFormat = (operation.params as ConvertParams).format], which is
    [undefined], here [None], when the property is missing. *)
Definition formatStep (outputFormat : option string) (entry : FormatEntry)
  : option string :=
  if bool_decide (entry_type entry = "convert") then entry_format entry
  else outputFormat.

(** The [switch (outputFormat)] with its [default] branch: the format of
    the encoder that is called. *)
Definition encoderFormat (outputFormat : option string) : Format :=
  match outputFormat with
  | Some name =>
      if bool_decide (name = "png") then png
      else if bool_decide (name = "webp") then webp
      else jpeg
  | None => jpeg
  end.

End ImageProcessor.

(** ** The disk below the upload directory *)

(** A regular file with its bytes and modification time, or a directory.
    The root node is the upload directory itself, which holds
    [metadata.json], [raw/] and [processed/]. *)
#[warnings="-register-all"]
Inductive node :=
| File (content : list Byte.byte) (mtimeMs : Z)
| Dir (entries : gmap string node).

Inductive Errno := ENOENT | ENOTDIR | EISDIR.

Definition errnoName (e : Errno) : string :=
  match e with ENOENT => "ENOENT" | ENOTDIR => "ENOTDIR" | EISDIR => "EISDIR" end.

(** The calls of Node's [fs/promises] that the backend makes, as functions
    on the tree; [inl] is the rejection Node would produce. *)
Module fs.

Fixpoint stat (p : path) (n : node) : Errno + node :=
  match p with
  | [] => inr n
  | name :: rest =>
      match n with
      | File _ _ => inl ENOTDIR
      | Dir entries =>
          match entries !! name with
          | None => inl ENOENT
          | Some child => stat rest child
          end
      end
  end.

Definition access (p : path) (disk : node) : Errno + unit :=
  match stat p disk with
  | inl e => inl e
  | inr _ => inr tt
  end.

Definition readFile (p : path) (disk : node) : Errno + list Byte.byte :=
  match stat p disk with
  | inl e => inl e
  | inr (File content _) => inr content
  | inr (Dir _) => inl EISDIR
  end.

(** The directory entries with their nodes ([withFileTypes]). *)
Definition readdir (p : path) (disk : node) : Errno + list (string * node) :=
  match stat p disk with
  | inl e => inl e
  | inr (Dir entries) => inr (map_to_list entries)
  | inr (File _ _) => inl ENOTDIR
  end.

(** Create or replace the regular file at [p]; its directory must exist. *)
Fixpoint writeFile (p : path) (content : list Byte.byte) (now : Z) (n : node)
  : Errno + node :=
  match n with
  | File _ _ => match p with [] => inl EISDIR | _ => inl ENOTDIR end
  | Dir entries =>
      match p with
      | [] => inl EISDIR
      | [name] =>
          match entries !! name with
          | Some (Dir _) => inl EISDIR
          | _ => inr (Dir (<[name := File content now]> entries))
          end
      | name :: rest =>
          match entries !! name with
          | None => inl ENOENT
          | Some child =>
              match writeFile rest content now child with
              | inl e => inl e
              | inr child' => inr (Dir (<[name := child']> entries))
              end
          end
      end
  end.

(** Remove the regular file at [p]. *)
Fixpoint unlink (p : path) (n : node) : Errno + node :=
  match n with
  | File _ _ => match p with [] => inl EISDIR | _ => inl ENOTDIR end
  | Dir entries =>
      match p with
      | [] => inl EISDIR
      | [name] =>
          match entries !! name with
          | None => inl ENOENT
          | Some (Dir _) => inl EISDIR
          | Some (File _ _) => inr (Dir (delete name entries))
          end
      | name :: rest =>
          match entries !! name with
          | None => inl ENOENT
          | Some child =>
              match unlink rest child with
              | inl e => inl e
              | inr child' => inr (Dir (<[name := child']> entries))
              end
          end
      end
  end.

(** [mkdir(p, { recursive: true })]: missing directories are created and
    an existing directory is kept; a regular file in the way rejects with
    the code given. *)
Fixpoint mkdir (p : path) (n : node) : string + node :=
  match n with
  | File _ _ => match p with [] => inl "EEXIST" | _ => inl "ENOTDIR" end
  | Dir entries =>
      match p with
      | [] => inr n
      | name :: rest =>
          match mkdir rest (default (Dir ∅) (entries !! name)) with
          | inl e => inl e
          | inr child => inr (Dir (<[name := child]> entries))
          end
      end
  end.

End fs.

(** ** services/storage.ts *)

Module StorageService.

(** [uploadDir] is the root of the tree, the empty path. *)
Definition uploadDir : path := [].
Definition rawDir : path := uploadDir ++ ["raw"].
Definition processedDir : path := uploadDir ++ ["processed"].

Definition getRawPath (filename : string) : path := rawDir ++ [filename].
Definition getProcessedPath (filename : string) : path := processedDir ++ [filename].

Definition byteSize (content : list Byte.byte) : Z := Z.of_nat (length content).

(** [calculateDirectorySize] on the node its argument names. [readdir]
    of a node that is not a directory rejects, the [catch] logs it and
    the total so far, 0, is returned. *)
Fixpoint calculateDirectorySize (directory : node) : Z :=
  match directory with
  | File _ _ => 0
  | Dir files =>
      map_fold (fun _ file totalSize =>
                  match file with
                  | Dir _ => totalSize + calculateDirectorySize file
                  | File content _ => totalSize + byteSize content
                  end) 0 files
  end.

(** [calculateDirectorySize] catches every rejection itself, so the
    [catch] of [checkDiskQuota], which would answer [false], is not
    reached. *)
Definition checkDiskQuota (config : AppConfig) (disk : node) : bool :=
  let totalSize := calculateDirectorySize disk in
  bool_decide (totalSize < maxDiskQuota config).

(** [deleteFile]: the rejection of [unlink] is logged, not raised. *)
Definition deleteFile (filePath : path) (disk : node) : node :=
  match fs.unlink filePath disk with
  | inr disk' => disk'
  | inl _ => disk
  end.

(** The [for] loop of [cleanupDirectory]. A rejection of [stat] leaves
    the loop for the enclosing [catch]. *)
Fixpoint cleanupLoop (directory : path) (now ttlMs : Z) (files : list string)
    (disk : node) : node :=
  match files with
  | [] => disk
  | file :: rest =>
      let filePath := directory ++ [file] in
      match fs.stat filePath disk with
      | inl _ => disk
      | inr (File _ mtimeMs) =>
          if bool_decide (now - mtimeMs > ttlMs)
          then cleanupLoop directory now ttlMs rest (deleteFile filePath disk)
          else cleanupLoop directory now ttlMs rest disk
      | inr (Dir _) => cleanupLoop directory now ttlMs rest disk
      end
  end.

Definition cleanupDirectory (directory : path) (now ttlMs : Z) (disk : node) : node :=
  match fs.readdir directory disk with
  | inl _ => disk
  | inr files => cleanupLoop directory now ttlMs files.*1 disk
  end.

Definition cleanupOldFiles (ttlHours : Z) (now : Z) (disk : node) : node :=
  let ttlMs := ttlHours * 60 * 60 * 1000 in
  let disk := cleanupDirectory rawDir now ttlMs disk in
  cleanupDirectory processedDir now ttlMs disk.

(** [initialize]: the two directories below the upload directory are
    made in turn, then [logs] in the working directory. [cwd] is the
    working directory without the upload directory, which is configured
    apart from [logs]. The first call that rejects ends the function. *)
Definition initialize (disk cwd : node) : string + (node * node) :=
  match fs.mkdir rawDir disk with
  | inl e => inl e
  | inr disk1 =>
      match fs.mkdir processedDir disk1 with
      | inl e => inl e
      | inr disk2 =>
          match fs.mkdir ["logs"] cwd with
          | inl e => inl e
          | inr cwd' => inr (disk2, cwd')
          end
      end
  end.

End StorageService.

(** ** The state of the process and the monad of its handlers *)

(** The files below the upload directory and the [cache] of the one
    [MetadataStore] instance of routes/image.ts. *)
Record World := {
  disk : node;
  cache : gmap string ImageMetadata
}.

(** An [async] function that may mutate the world and then resolve or
    reject. *)
Definition M (A : Type) : Type := World -> World * result A.

Definition ret {A} (a : A) : M A := fun w => (w, Ok a).

Definition throw {A} (e : Error) : M A := fun w => (w, Throw e).

Definition bind {A B} (c : M A) (k : A -> M B) : M B :=
  fun w =>
    match c w with
    | (w', Ok a) => k a w'
    | (w', Throw e) => (w', Throw e)
    end.

(** [try { c } catch (error) { h error }] *)
Definition try_catch {A} (c : M A) (h : Error -> M A) : M A :=
  fun w =>
    match c w with
    | (w', Ok a) => (w', Ok a)
    | (w', Throw e) => h e w'
    end.

Definition getDisk : M node := fun w => (w, Ok (disk w)).

Definition putDisk (d : node) : M unit :=
  fun w => ({| disk := d; cache := cache w |}, Ok tt).

Definition getCache : M (gmap string ImageMetadata) := fun w => (w, Ok (cache w)).

Definition putCache (c : gmap string ImageMetadata) : M unit :=
  fun w => ({| disk := disk w; cache := c |}, Ok tt).

(** Await an [fs] call: a rejection is thrown as a plain [Error]. *)
Definition await {A} (r : Errno + A) : M A :=
  match r with
  | inr a => ret a
  | inl e => throw (OtherError (errnoName e))
  end.

Declare Scope M_scope.
Delimit Scope M_scope with M.
Notation "x <- c ;; k" := (bind c (fun x => k))
  (at level 100, c at next level, right associativity) : M_scope.
Notation "c ;;; k" := (bind c (fun _ => k))
  (at level 100, right associativity) : M_scope.

(** ** services/metadata.ts *)

Module MetadataStore.

Definition METADATA_FILE : string := "metadata.json".

(** [path.join(uploadDir, METADATA_FILE)] *)
Definition metadataPath : path := StorageService.uploadDir ++ [METADATA_FILE].

(** [Array.from(this.cache.values())] *)
Definition list (c : gmap string ImageMetadata) : Datatypes.list ImageMetadata :=
  (map_to_list c).*2.

Definition get (fileId : string) : M (option ImageMetadata) :=
  fun w => (w, Ok (cache w !! fileId)).

(** One turn of the loop of [cleanup]: the cache and the counter
    [deleted]. *)
Definition cleanupStep (now ttlMs : Z) (st : gmap string ImageMetadata * Z)
    (entry : string * ImageMetadata) : gmap string ImageMetadata * Z :=
  if bool_decide (now - timestamp entry.2 > ttlMs)
  then (base.delete entry.1 st.1, st.2 + 1)
  else st.

Section WithJSON.

(** [JSON.stringify(records, null, 2)], and [JSON.parse] read as an
    array of records; [None] is the [SyntaxError] (or the [TypeError]
    of [forEach] on a value that is no array). *)
Variable JSON_stringify : Datatypes.list ImageMetadata -> Datatypes.list Byte.byte.
Variable JSON_parse : Datatypes.list Byte.byte -> option (Datatypes.list ImageMetadata).

Local Open Scope M_scope.

Definition save (now : Z) : M unit :=
  c <- getCache ;;
  d <- getDisk ;;
  d' <- await (fs.writeFile metadataPath (JSON_stringify (list c)) now d) ;;
  putDisk d'.

(** [initialize]: only [ENOENT] leads to [save]; any other failure of
    the read or of the parse is logged and the promise resolves. *)
Definition initialize (now : Z) : M unit :=
  d <- getDisk ;;
  match fs.readFile metadataPath d with
  | inr data =>
      match JSON_parse data with
      | Some records =>
          c <- getCache ;;
          putCache (foldl (fun c record => <[fileId record := record]> c) c records)
      | None => ret tt
      end
  | inl ENOENT => save now
  | inl _ => ret tt
  end.

(** [new MetadataStore(uploadDir)] on a disk: the empty [Map], then
    [initialize]. *)
Definition create (now : Z) (d : node) : World * result unit :=
  initialize now {| disk := d; cache := ∅ |}.

Definition set (now : Z) (fileId : string) (metadata : ImageMetadata) : M unit :=
  c <- getCache ;;
  putCache (<[fileId := metadata]> c) ;;;
  save now.

Definition delete (now : Z) (fileId : string) : M unit :=
  c <- getCache ;;
  putCache (base.delete fileId c) ;;;
  save now.

Definition cleanup (now : Z) (ttlMs : Z) : M Z :=
  c <- getCache ;;
  let '(c', deleted) := foldl (cleanupStep now ttlMs) (c, 0) (map_to_list c) in
  putCache c' ;;;
  if bool_decide (deleted > 0)
  then save now ;;; ret deleted
  else ret deleted.

End WithJSON.

End MetadataStore.

(** ** middleware/upload.ts and routes/image.ts *)

Module Routes.

(** The part named [image] of a multipart request. *)
Record UploadedPart := {
  part_originalname : string;
  part_mimetype : string;
  part_content : list Byte.byte
}.

(** [req.file] as multer's disk storage fills it. *)
Record MulterFile := {
  file_path : path;
  file_filename : string;
  file_originalname : string;
  file_size : Z;
  file_mimetype : string
}.

Record UploadResponse := {
  up_fileId : string;
  up_originalName : string;
  up_size : Z;
  up_previewUrl : string
}.

Record ProcessRequest := {
  req_fileId : option string;
  req_operations : option (list ImageOperation)
}.

Record ProcessResponse := {
  pr_fileId : string;
  pr_downloadUrl : string;
  pr_processedSize : Z
}.

(** What a route answers: the 429 of its rate limiter, or what the
    handlers behind the limiter did. *)
Inductive Answer (A : Type) :=
| TooManyRequests (message : string)
| Handled (r : result A).
Arguments TooManyRequests {A} message.
Arguments Handled {A} r.

(** One turn of the loop of the process route that picks the extension
    of the output file, on an entry as it is at run time:
    [if (op.type === 'convert' && 'format' in op.params)
       outputFormat = op.params.format]. *)
Definition formatEntryStep (outputFormat : string) (entry : FormatEntry) : string :=
  if bool_decide (entry_type entry = "convert")
  then match entry_format entry with
       | Some name => name
       | None => outputFormat
       end
  else outputFormat.

(** The same turn on a well-formed operation. *)
Definition routeFormatStep (outputFormat : string) (op : ImageOperation) : string :=
  formatEntryStep outputFormat (ImageProcessor.formatEntryOf op).

Section WithPlatform.

Variable config : AppConfig.
(** [fromBuffer] of file-type as the handler meets it: the promise
    resolves with the detected MIME type, or with [undefined], or it
    rejects with the message given. *)
Variable fromBuffer : list Byte.byte -> string + option string.
(** [path.extname] and [path.parse(_).name] of Node. *)
Variable extname : string -> string.
Variable parseName : string -> string.
Variable JSON_stringify : list ImageMetadata -> list Byte.byte.
(** What the image library makes of a pipeline and the input bytes when
    [toFile] runs: the encoded bytes and [info.format]; or the message of
    its error, together with the bytes, if any, that it has put at the
    output path by then. *)
Variable render : ImageProcessor.Sharp -> list Byte.byte
                  -> (string * option (list Byte.byte)) + (list Byte.byte * string).

Local Open Scope M_scope.

(** [rateLimit({ ... })] in front of a route. express-rate-limit counts
    the requests of a client in a store of its own; whether the window of
    the client is used up, [exhausted], is an argument. If it is, the
    limiter sends 429 with its message and the handlers behind it do not
    run. *)
Definition rateLimit {A} (message : string) (exhausted : bool) (next : M A)
  : World -> World * Answer A :=
  fun w =>
    if exhausted then (w, TooManyRequests message)
    else let '(w', r) := next w in (w', Handled r).

(** [upload.single('image')]: the file filter, the size limit, then
    the disk storage with its [destination] and [filename]. Without
    the part, [req.file] stays [undefined]. The limit [fileSize] is
    reached, and the file refused, as soon as the bytes of the part are
    as many as the limit. *)
Definition uploadSingle (uuid : string) (now : Z) (part : option UploadedPart)
  : M (option MulterFile) :=
  match part with
  | None => ret None
  | Some p =>
      if negb (bool_decide (part_mimetype p ∈ allowedMimeTypes config))
      then throw (OtherError ("Invalid file type. Allowed types: "
                              +:+ String.concat ", " (allowedMimeTypes config)))
      else if bool_decide (StorageService.byteSize (part_content p) >= maxFileSize config)
      then throw (OtherError "File too large")
      else
        let ext := extname (part_originalname p) in
        let filename := uuid +:+ ext in
        let destination := StorageService.rawDir in
        d <- getDisk ;;
        d' <- await (fs.writeFile (destination ++ [filename]) (part_content p) now d) ;;
        putDisk d' ;;;
        ret (Some {| file_path := destination ++ [filename];
                     file_filename := filename;
                     file_originalname := part_originalname p;
                     file_size := StorageService.byteSize (part_content p);
                     file_mimetype := part_mimetype p |})
  end.

Definition storage_deleteFile (filePath : path) : M unit :=
  d <- getDisk ;;
  putDisk (StorageService.deleteFile filePath d).

(** [await validateFileSignature(buffer)]. The function has no handler
    around its [await fromBuffer(buffer)], so a rejection of the sniffer
    is its own; otherwise it runs on the type the sniffer resolved
    with. *)
Definition validateFileSignature (buffer : list Byte.byte) : M bool :=
  match fromBuffer buffer with
  | inl message => throw (OtherError message)
  | inr fileTypeResult =>
      ret (Validation.validateFileSignature (fun _ => fileTypeResult) config buffer)
  end.

(** The handler of [POST /upload]; a [Throw] is [next(error)]. *)
Definition uploadHandler (now : Z) (file : option MulterFile) : M UploadResponse :=
  match file with
  | None => throw (AppError "No file uploaded" 400)
  | Some f =>
      d <- getDisk ;;
      let hasSpace := StorageService.checkDiskQuota config d in
      if negb hasSpace
      then storage_deleteFile (file_path f) ;;;
           throw (AppError "Disk quota exceeded" 507)
      else
        buffer <- await (fs.readFile (file_path f) d) ;;
        isValid <- validateFileSignature buffer ;;
        if negb isValid
        then storage_deleteFile (file_path f) ;;;
             throw (AppError "Invalid file format or corrupted file" 400)
        else
          let fileId := parseName (file_filename f) in
          MetadataStore.set JSON_stringify now fileId
            {| fileId := fileId;
               originalName := file_originalname f;
               size := file_size f;
               mimeType := file_mimetype f;
               rawPath := file_path f;
               processedPath := None;
               timestamp := now;
               operations := None |} ;;;
          ret {| up_fileId := fileId;
                 up_originalName := file_originalname f;
                 up_size := file_size f;
                 up_previewUrl := "/api/images/raw/" +:+ file_filename f |}
  end.

(** [POST /upload] behind its limiter: the middleware of multer, then
    the handler. *)
Definition postUpload (uuid : string) (now : Z) (part : option UploadedPart)
  : M UploadResponse :=
  file <- uploadSingle uuid now part ;;
  uploadHandler now file.

(** [router.post('/upload', uploadLimiter, upload.single('image'), ...)] *)
Definition uploadRoute (exhausted : bool) (uuid : string) (now : Z)
    (part : option UploadedPart) : World -> World * Answer UploadResponse :=
  rateLimit "Too many upload requests from this IP, please try again later."
            exhausted (postUpload uuid now part).

(** What [toFile] leaves at the output path when the library fails: the
    bytes it had put there, if it had put any and the path can be
    written. *)
Definition leftBehind (outputPath : path) (partial : option (list Byte.byte)) (now : Z)
    (d : node) : node :=
  match partial with
  | Some bytes =>
      match fs.writeFile outputPath bytes now d with
      | inr d' => d'
      | inl _ => d
      end
  | None => d
  end.

(** [processImage]: build the pipeline, run it with [toFile], wrap any
    failure. Reading the input and writing the output are done by the
    library inside [toFile]; nothing in the [catch] removes what a failed
    run has left at the output path. *)
Definition processImage (now : Z) (inputPath outputPath : path)
    (operations : list ImageOperation) : M (Z * string) :=
  try_catch
    (let pipeline := ImageProcessor.pipelineOf operations in
     d <- getDisk ;;
     input <- await (fs.readFile inputPath d) ;;
     match render pipeline input with
     | inl (message, partial) =>
         putDisk (leftBehind outputPath partial now d) ;;;
         throw (OtherError message)
     | inr (output, fmt) =>
         d' <- await (fs.writeFile outputPath output now d) ;;
         putDisk d' ;;;
         ret (StorageService.byteSize output, fmt)
     end)
    (fun error =>
       throw (OtherError ("Image processing failed: " +:+ messageOf error))).

(** The handler of [POST /process], behind its limiter. *)
Definition processHandler (uuid : string) (now : Z) (body : ProcessRequest)
  : M ProcessResponse :=
  match req_fileId body, req_operations body with
  | Some fid, Some ops =>
      if bool_decide (fid = "") then throw (AppError "Invalid request body" 400)
      else
        found <- MetadataStore.get fid ;;
        match found with
        | None => throw (AppError "File not found" 404)
        | Some meta =>
            try_catch (d <- getDisk ;; await (fs.access (rawPath meta) d))
                      (fun _ => throw (AppError "File not found on disk" 404)) ;;;
            let outputFormat := foldl routeFormatStep "jpeg" ops in
            let outputExt := ImageProcessor.getExtensionFromFormat outputFormat in
            let outputFilename := ImageProcessor.generateFilename uuid outputExt in
            let outputPath := StorageService.getProcessedPath outputFilename in
            result <- processImage now (rawPath meta) outputPath ops ;;
            let meta' := {| fileId := fileId meta;
                            originalName := originalName meta;
                            size := size meta;
                            mimeType := mimeType meta;
                            rawPath := rawPath meta;
                            processedPath := Some outputPath;
                            timestamp := timestamp meta;
                            operations := Some ops |} in
            MetadataStore.set JSON_stringify now fid meta' ;;;
            ret {| pr_fileId := fid;
                   pr_downloadUrl := "/api/images/processed/" +:+ outputFilename;
                   pr_processedSize := result.1 |}
        end
  | _, _ => throw (AppError "Invalid request body" 400)
  end.

(** [router.post('/process', processLimiter, ...)] *)
Definition processRoute (exhausted : bool) (uuid : string) (now : Z)
    (body : ProcessRequest) : World -> World * Answer ProcessResponse :=
  rateLimit "Too many processing requests from this IP, please try again later."
            exhausted (processHandler uuid now body).

(** The handler of [DELETE /images/:fileId]; this route has no limiter. *)
Definition deleteHandler (now : Z) (fileId : string) : M unit :=
  found <- MetadataStore.get fileId ;;
  match found with
  | None => throw (AppError "File not found" 404)
  | Some meta =>
      (if bool_decide (rawPath meta = []) then ret tt
       else storage_deleteFile (rawPath meta)) ;;;
      match processedPath meta with
      | Some p => if bool_decide (p = []) then ret tt else storage_deleteFile p
      | None => ret tt
      end ;;;
      MetadataStore.delete JSON_stringify now fileId
  end.

End WithPlatform.

(** The handler of [GET /images]. *)
Definition listHandler : M (list ImageMetadata) :=
  bind getCache (fun c => ret (MetadataStore.list c)).

(** The status of the response: the one the handler sets on success,
    the one [errorHandler] derives from the error otherwise. *)
Definition uploadStatus (r : result UploadResponse) : Z :=
  match r with Ok _ => 201 | Throw e => statusOf e end.

Definition processStatus (r : result ProcessResponse) : Z :=
  match r with Ok _ => 200 | Throw e => statusOf e end.

Definition deleteStatus (r : result unit) : Z :=
  match r with Ok _ => 204 | Throw e => statusOf e end.

(** The status of what a route behind a limiter answers, [handled] being
    one of the functions above. *)
Definition answerStatus {A} (handled : result A -> Z) (a : Answer A) : Z :=
  match a with
  | TooManyRequests _ => 429
  | Handled r => handled r
  end.

End Routes.

(** ** server.ts *)

Module Server.

(** The callback of [setInterval] in [startServer]: it logs and awaits
    [storage.cleanupOldFiles(config.cleanupTtlHours)], nothing else. *)
Definition cleanupJob (config : AppConfig) (now : Z) : M unit :=
  bind getDisk (fun d =>
    putDisk (StorageService.cleanupOldFiles (cleanupTtlHours config) now d)).

(** The period of the timer, in milliseconds. *)
Definition cleanupPeriodMs (config : AppConfig) : Z :=
  cleanupIntervalHours config * 60 * 60 * 1000.

End Server.

(** * The vocabulary of the specification *)

Section Vocabulary.

Import Validation ImageProcessor StorageService.

(** The characters the class names, written out. *)
Definition classChars : list codeUnit :=
  js "abcdefghijklmnopqrstuvwxyzABCDEFGHIJKLMNOPQRSTUVWXYZ0123456789._-".

(** The call a positional operation adds to the pipeline; [Convert] and
    [Quality] add none. *)
Definition transformOf (operation : ImageOperation) : list SharpCall :=
  match operation with
  | Resize params =>
      [sharp_resize (resize_width params) (resize_height params)
                    (default cover (resize_fit params)) false]
  | Crop params =>
      [sharp_extract (Math_round (crop_x params)) (Math_round (crop_y params))
                     (Math_round (crop_width params)) (Math_round (crop_height params))]
  | Convert _ => []
  | Quality _ => []
  end.

Definition convertOf (operation : ImageOperation) : option Format :=
  match operation with Convert params => Some (format params) | _ => None end.

Definition qualityOf (operation : ImageOperation) : option Z :=
  match operation with Quality params => Some (quality params) | _ => None end.

(** The format of the last [Convert] entry of a list, if it has one, and
    the level of its last [Quality] entry. *)
Definition lastConvert (operations : list ImageOperation) : option Format :=
  last (omap convertOf operations).

Definition lastQuality (operations : list ImageOperation) : option Z :=
  last (omap qualityOf operations).

(** The encoder call for a format and a quality. *)
Definition encoderOf (f : Format) (q : Z) : SharpCall :=
  match f with
  | jpeg => sharp_jpeg q true
  | png => sharp_png q 9
  | webp => sharp_webp q
  end.

Definition isSetting (operation : ImageOperation) : bool :=
  match operation with
  | Convert _ | Quality _ => true
  | _ => false
  end.

(** The sum of the byte sizes of all files below a directory, level by
    level: an empty directory holds nothing, a file adds its size, a
    subdirectory adds the sum below it. *)
Inductive TotalBytes : node -> Z -> Prop :=
| TotalBytes_empty : TotalBytes (Dir ∅) 0
| TotalBytes_file name content mtimeMs entries total :
    entries !! name = None ->
    TotalBytes (Dir entries) total ->
    TotalBytes (Dir (<[name := File content mtimeMs]> entries))
               (total + byteSize content)
| TotalBytes_dir name sub entries total subtotal :
    entries !! name = None ->
    TotalBytes (Dir entries) total ->
    TotalBytes (Dir sub) subtotal ->
    TotalBytes (Dir (<[name := Dir sub]> entries)) (total + subtotal).

(** What one entry adds to the total in [calculateDirectorySize]. *)
Definition entryBytes (file : node) : Z :=
  match file with
  | Dir _ => calculateDirectorySize file
  | File content _ => byteSize content
  end.

(** The number of nodes of a tree, to recurse on. *)
Fixpoint weight (n : node) : nat :=
  match n with
  | File _ _ => 1
  | Dir entries => S (map_fold (fun _ child acc => acc + weight child)%nat 0%nat entries)
  end.

(** A record is expired when its age exceeds the TTL. *)
Definition isExpired (now ttlMs : Z) (metadata : ImageMetadata) : Prop :=
  now - timestamp metadata > ttlMs.

#[global] Instance isExpired_dec now ttlMs metadata : Decision (isExpired now ttlMs metadata).
Proof. unfold isExpired. apply _. Defined.

(** A regular file whose age, by its modification time, exceeds the TTL. *)
Definition isStale (now ttlMs : Z) (n : node) : bool :=
  match n with
  | File _ mtimeMs => bool_decide (now - mtimeMs > ttlMs)
  | Dir _ => false
  end.

(** The entries of a directory without its stale files. *)
Definition freshEntries (now ttlMs : Z) (entries : gmap string node) : gmap string node :=
  filter (fun entry => isStale now ttlMs entry.2 = false) entries.

(** Every key of the catalog is the [fileId] of its record. *)
Definition keysAgree (c : gmap string ImageMetadata) : Prop :=
  forall k m, c !! k = Some m -> fileId m = k.

(** The snapshot on disk is the serialised catalog in memory. *)
Definition persisted (JSON_stringify : list ImageMetadata -> list Byte.byte)
    (w : World) : Prop :=
  fs.readFile MetadataStore.metadataPath (disk w)
    = inr (JSON_stringify (MetadataStore.list (cache w))).

(** The file extension that belongs to an output format. *)
Definition extensionOf (f : Format) : string :=
  match f with jpeg => "jpg" | png => "png" | webp => "webp" end.

(** An entry that is not a conversion, or a conversion that carries one
    of the three formats of [ConvertParams]. *)
Definition carriesFormat (entry : FormatEntry) : Prop :=
  entry_type entry = "convert" ->
  entry_format entry ∈ [Some "jpeg"; Some "png"; Some "webp"].

(** A directory entry after the sweep of [cleanupDirectory]: a directory
    loses its stale files, anything else is kept. *)
Definition sweptEntry (now ttlMs : Z) (name : string) (top : gmap string node)
  : gmap string node :=
  match top !! name with
  | Some (Dir entries) => <[name := Dir (freshEntries now ttlMs entries)]> top
  | _ => top
  end.

(** What [initialize] makes of an upload directory: an entry that is
    missing becomes an empty directory, one that is there is kept. *)
Definition ensureDir (name : string) (top : gmap string node) : gmap string node :=
  match top !! name with
  | Some _ => top
  | None => <[name := Dir ∅]> top
  end.

End Vocabulary.

(** * Sample data *)

Section Samples.

Import Byte Validation ImageProcessor StorageService.

(** A RIFF container that holds audio: the four bytes [RIFF], a length,
    and the form type [WAVE]. *)
Definition riffWave : list byte :=
  [x52; x49; x46; x46; x24; x00; x00; x00; x57; x41; x56; x45].

(** A sniffer that reads a RIFF container by its form type at offset 8,
    as file-type does: [WEBP] is an image, [WAVE] is audio. *)
Definition riffSniffer (buffer : list byte) : option string :=
  if bool_decide ([x52; x49; x46; x46] `prefix_of` buffer) then
    if bool_decide (take 4 (drop 8 buffer) = [x57; x45; x42; x50]) then Some "image/webp"
    else if bool_decide (take 4 (drop 8 buffer) = [x57; x41; x56; x45]) then Some "audio/vnd.wave"
    else None
  else None.

(** The PNG magic followed by two more bytes. *)
Definition pngHeader : list byte :=
  [x89; x50; x4e; x47; x0d; x0a; x1a; x0a; x00; x00].

Definition pngSniffer (_ : list byte) : option string := Some "image/png".

(** A sniffer as the upload handler meets it, whose promise resolves. *)
Definition resolving (sniffer : list byte -> option string) (buffer : list byte)
  : string + option string :=
  inr (sniffer buffer).

Definition Resize_ (w h : Z) : ImageOperation :=
  Resize {| resize_width := Some w; resize_height := Some h; resize_fit := None |}.
Definition Convert_ (f : Format) : ImageOperation := Convert {| format := f |}.
Definition Quality_ (q : Z) : ImageOperation := Quality {| quality := q |}.

(** A stand-in for the image library that returns its input bytes and
    names the format of the encoder call that closes the pipeline. *)
Definition echoRender (pipeline : Sharp) (input : list Byte.byte)
  : (string * option (list Byte.byte)) + (list Byte.byte * string) :=
  match last pipeline with
  | Some (sharp_jpeg _ _) => inr (input, "jpeg")
  | Some (sharp_png _ _) => inr (input, "png")
  | Some (sharp_webp _) => inr (input, "webp")
  | _ => inl ("no output format", None)
  end.

(** A stand-in for an image library that fails on every input after it
    has put the first byte of the input at the output path. *)
Definition failingRender (pipeline : Sharp) (input : list Byte.byte)
  : (string * option (list Byte.byte)) + (list Byte.byte * string) :=
  inl ("unsupported image format", Some (take 1 input)).

(** Entries of a request body: conversions to PNG and to GIF, and a
    conversion whose [params] carry no format. *)
Definition pngEntry : FormatEntry :=
  {| entry_type := "convert"; entry_format := Some "png" |}.
Definition gifEntry : FormatEntry :=
  {| entry_type := "convert"; entry_format := Some "gif" |}.
Definition bareConvert : FormatEntry :=
  {| entry_type := "convert"; entry_format := None |}.

(** A disk with one raw upload and an empty [processed/]. *)
Definition oneUploadDisk (content : list Byte.byte) (mtimeMs : Z) : node :=
  Dir (<["raw" := Dir (<["a.jpg" := File content mtimeMs]> ∅)]>
      (<["processed" := Dir ∅]> ∅)).

(** A disk whose catalog snapshot is larger than the uploads. *)
Definition smallDisk : node :=
  Dir (<["metadata.json" := File [Byte.x5b; Byte.x0a; Byte.x0a; Byte.x5d] 0]>
      (<["raw" := Dir (<["a.jpg" := File [Byte.xff; Byte.xd8; Byte.xff] 0]> ∅)]>
      (<["processed" := Dir ∅]> ∅))).

Definition smallQuota : AppConfig := {|
  maxFileSize := maxFileSize defaultConfig;
  allowedMimeTypes := allowedMimeTypes defaultConfig;
  cleanupTtlHours := cleanupTtlHours defaultConfig;
  cleanupIntervalHours := cleanupIntervalHours defaultConfig;
  maxDiskQuota := 5
|}.

(** The text of the empty array, as [JSON.stringify([], null, 2)] gives
    it. *)
Definition emptyArrayText : Datatypes.list Byte.byte := [Byte.x5b; Byte.x5d].

(** [JSON.parse] on the two texts used below: the empty array, and
    anything else, which is taken not to be JSON. *)
Definition parseEmptyArray (data : Datatypes.list Byte.byte)
  : option (Datatypes.list ImageMetadata) :=
  if bool_decide (data = emptyArrayText) then Some [] else None.

(** A serialiser that writes the empty array as above and marks every
    record by one byte between the brackets. *)
Definition stringifyCount (records : Datatypes.list ImageMetadata)
  : Datatypes.list Byte.byte :=
  [Byte.x5b] ++ ((fun _ => Byte.x2a) <$> records) ++ [Byte.x5d].

(** A snapshot cut off after its first byte. *)
Definition truncatedSnapshotDisk : node :=
  Dir (<["metadata.json" := File [Byte.x5b] 0]>
      (<["raw" := Dir ∅]> (<["processed" := Dir ∅]> ∅))).

(** The part of a multipart request that carries a PNG header. *)
Definition pngPart : Routes.UploadedPart := {|
  Routes.part_originalname := "b.png";
  Routes.part_mimetype := "image/png";
  Routes.part_content := pngHeader
|}.

(** One upload, made at time 0 and never processed. *)
Definition catRecord : ImageMetadata := {|
  fileId := "a";
  originalName := "cat.jpg";
  size := 3;
  mimeType := "image/jpeg";
  rawPath := ["raw"; "a.jpg"];
  processedPath := None;
  timestamp := 0;
  operations := None
|}.

Definition catWorld : World := {|
  disk := oneUploadDisk [Byte.xff; Byte.xd8; Byte.xff] 0;
  cache := <["a" := catRecord]> ∅
|}.

Definition catRequest : Routes.ProcessRequest := {|
  Routes.req_fileId := Some "a";
  Routes.req_operations :=
    Some [Resize_ 100 100; Convert_ webp; Quality_ 50; Convert_ png]
|}.

(** The world after the request above is served at time 5000. *)
Definition catProcessed : World :=
  (Routes.processHandler stringifyCount echoRender "u2" 5000 catRequest catWorld).1.

(** An upload of time 0 that was processed at once: both files are
    older than a day when the job runs 25 hours later. *)
Definition staleRecord : ImageMetadata := {|
  fileId := "a";
  originalName := "cat.jpg";
  size := 3;
  mimeType := "image/jpeg";
  rawPath := ["raw"; "a.jpg"];
  processedPath := Some ["processed"; "u2.jpg"];
  timestamp := 0;
  operations := Some []
|}.

Definition staleWorld : World := {|
  disk := Dir (<["raw" := Dir (<["a.jpg" := File [Byte.xff; Byte.xd8; Byte.xff] 0]> ∅)]>
              (<["processed" := Dir (<["u2.jpg" := File [Byte.xff; Byte.xd8; Byte.xff] 0]> ∅)]> ∅));
  cache := <["a" := staleRecord]> ∅
|}.

Definition sweepTime : Z := 25 * 60 * 60 * 1000.

Definition sweptWorld : World :=
  (Server.cleanupJob defaultConfig sweepTime staleWorld).1.


(** [JSON.parse] on the snapshot that holds [catRecord] alone, and on the
    empty array. *)
Definition catSnapshotParse (data : list Byte.byte) : option (list ImageMetadata) :=
  if bool_decide (data = stringifyCount [catRecord]) then Some [catRecord]
  else parseEmptyArray data.

(** The world of [catWorld] after its catalog has been saved. *)
Definition catSavedWorld : World := {|
  disk := Dir (<["metadata.json" := File (stringifyCount [catRecord]) 0]>
              (<["raw" := Dir (<["a.jpg" := File [Byte.xff; Byte.xd8; Byte.xff] 0]> ∅)]>
              (<["processed" := Dir ∅]> ∅)));
  cache := <["a" := catRecord]> ∅
|}.

(** An upload directory in which a directory stands where the snapshot
    should be. *)
Definition blockedSnapshotDisk : node :=
  Dir (<["metadata.json" := Dir ∅]> (<["raw" := Dir ∅]> ∅)).

End Samples.

(** * Properties *)

(** ** The filename sanitiser *)

Section SanitizeFilename.

Import Validation.

Lemma inClass_below (c : codeUnit) :
  inClass c = true -> (c <= 122)%N.
Proof.
  unfold inClass. intros H.
  repeat (apply orb_prop in H as [H | H]);
    try (apply andb_prop in H as [_ H]); try apply N.leb_le in H;
    try apply N.eqb_eq in H; lia.
Qed.

Lemma bounded_check (P : N -> bool) (n : nat) :
  forallb P (map N.of_nat (seq 0 n)) = true ->
  forall c, (c < N.of_nat n)%N -> P c = true.
Proof.
  intros H c Hc. rewrite forallb_forall in H. apply H.
  apply in_map_iff. exists (N.to_nat c). split; [lia |].
  apply in_seq. lia.
Qed.

Lemma inClass_classChars (c : codeUnit) :
  inClass c = bool_decide (c ∈ classChars).
Proof.
  destruct (decide (c < 123)%N) as [Hlt | Hge].
  - pose proof (bounded_check
      (fun c => bool_decide (inClass c = bool_decide (c ∈ classChars))) 123) as H.
    assert (Hb : bool_decide (inClass c = bool_decide (c ∈ classChars)) = true)
      by (apply H; [vm_compute; reflexivity | exact Hlt]).
    by apply bool_decide_eq_true in Hb.
  - destruct (inClass c) eqn:Hc.
    + apply inClass_below in Hc. lia.
    + symmetry. apply bool_decide_eq_false_2. intros Hin.
      assert (Hall : Forall (fun x => (x < 123)%N) classChars).
      { assert (Hb : bool_decide (Forall (fun x => (x < 123)%N) classChars) = true)
          by (vm_compute; reflexivity).
        by apply bool_decide_eq_true in Hb. }
      rewrite Forall_forall in Hall. apply Hall in Hin. lia.
Qed.

Lemma sanitizeFilename_inClass (filename : list codeUnit) :
  Forall (fun c => inClass c = true) (sanitizeFilename filename).
Proof.
  unfold sanitizeFilename. apply Forall_fmap, Forall_forall. intros c _. simpl.
  destruct (inClass c) eqn:Hc; [exact Hc | reflexivity].
Qed.

(** C10. [sanitizeFilename] maps every code unit outside the class
    [[a-zA-Z0-9._-]] to ['_'] and keeps every other one; its output
    consists of characters of the class only, is as long as its input,
    and sanitising twice is sanitising once. *)
Theorem sanitizeFilename_spec (filename : list codeUnit) :
  sanitizeFilename filename
    = (fun c => if bool_decide (c ∈ classChars) then c else underscore) <$> filename
  /\ Forall (fun c => c ∈ classChars) (sanitizeFilename filename)
  /\ length (sanitizeFilename filename) = length filename
  /\ sanitizeFilename (sanitizeFilename filename) = sanitizeFilename filename.
Proof.
  split; [| split; [| split]].
  - unfold sanitizeFilename. apply list_fmap_ext. intros _ c _.
    by rewrite inClass_classChars.
  - eapply Forall_impl; [apply sanitizeFilename_inClass |].
    intros c Hc. simpl in Hc. rewrite inClass_classChars in Hc.
    by apply bool_decide_eq_true in Hc.
  - unfold sanitizeFilename. apply length_map.
  - pose proof (sanitizeFilename_inClass filename) as Hall.
    induction Hall as [| c l Hc _ IH]; [reflexivity |].
    change (sanitizeFilename (c :: l))
      with ((if inClass c then c else underscore) :: sanitizeFilename l).
    by rewrite Hc, IH.
Qed.

(** The cases of tests/validation.test.ts. *)
Example sanitize_special :
  sanitizeFilename (js "file@name#with$special%chars.jpg")
    = js "file_name_with_special_chars.jpg".
Proof. reflexivity. Qed.

Example sanitize_allowed :
  sanitizeFilename (js "valid-file_name.123.jpg") = js "valid-file_name.123.jpg".
Proof. reflexivity. Qed.

Example sanitize_spaces :
  sanitizeFilename (js "file with spaces.jpg") = js "file_with_spaces.jpg".
Proof. reflexivity. Qed.

Example sanitize_empty : sanitizeFilename (js "") = js "".
Proof. reflexivity. Qed.

(** A code unit above the ASCII range is replaced like any other. *)
Example sanitize_non_ascii :
  sanitizeFilename [233%N; 46%N; 0x4e2d%N] = [95%N; 46%N; 95%N].
Proof. reflexivity. Qed.

End SanitizeFilename.

(** ** The signature validator *)

Section SignatureValidation.

Import Byte Validation.

Lemma signatureMatches_lookup (buffer signature : list byte) :
  signatureMatches buffer signature = true <->
  forall i, (i < length signature)%nat -> buffer !! i = signature !! i.
Proof.
  unfold signatureMatches. rewrite forallb_forall. split.
  - intros H i Hi. specialize (H i). rewrite in_seq in H.
    specialize (H ltac:(lia)). by apply bool_decide_eq_true in H.
  - intros H i Hi. apply bool_decide_eq_true_2. apply H. apply in_seq in Hi. lia.
Qed.

Lemma lookup_agree_prefix (signature buffer : list byte) :
  (forall i, (i < length signature)%nat -> buffer !! i = signature !! i) ->
  signature `prefix_of` buffer.
Proof.
  revert buffer. induction signature as [| s signature IH]; intros buffer H.
  - apply prefix_nil.
  - destruct buffer as [| b buffer].
    + specialize (H 0%nat ltac:(simpl; lia)). discriminate.
    + pose proof (H 0%nat ltac:(simpl; lia)) as H0. simpl in H0.
      injection H0 as ->. apply prefix_cons, IH.
      intros i Hi. apply (H (S i)). simpl. lia.
Qed.

(** The loop accepts exactly the buffers that start with the signature. *)
Lemma signatureMatches_prefix (buffer signature : list byte) :
  signatureMatches buffer signature = true <-> signature `prefix_of` buffer.
Proof.
  rewrite signatureMatches_lookup. split.
  - apply lookup_agree_prefix.
  - intros [rest ->] i Hi. by rewrite lookup_app_l.
Qed.

(** The table has the four MIME types and one signature for each. *)
Lemma MAGIC_BYTES_cases (mime : string) (signatures : list (list byte)) :
  MAGIC_BYTES !! mime = Some signatures ->
  (mime = "image/jpeg" /\ signatures = [[xff; xd8; xff]])
  \/ (mime = "image/png" /\ signatures = [[x89; x50; x4e; x47; x0d; x0a; x1a; x0a]])
  \/ (mime = "image/webp" /\ signatures = [[x52; x49; x46; x46]])
  \/ (mime = "image/gif" /\ signatures = [[x47; x49; x46; x38]]).
Proof.
  unfold MAGIC_BYTES. intros H.
  repeat (apply lookup_insert_Some in H as [[<- <-] | [_ H]]; [tauto |]).
  by rewrite lookup_empty in H.
Qed.

(** What [validateFileSignature] accepts: the sniffed type is allowed,
    has an entry in the table, and the buffer starts with one of the
    signatures of that entry. *)
Lemma validateFileSignature_true fromBuffer config (buffer : list byte) :
  validateFileSignature fromBuffer config buffer = true <->
  exists mime signatures signature,
    fromBuffer buffer = Some mime
    /\ mime ∈ allowedMimeTypes config
    /\ MAGIC_BYTES !! mime = Some signatures
    /\ signature ∈ signatures
    /\ signature `prefix_of` buffer.
Proof.
  unfold validateFileSignature. split.
  - destruct (fromBuffer buffer) as [mime |]; [| discriminate].
    case_bool_decide as Hallowed; simpl; [| discriminate].
    destruct (MAGIC_BYTES !! mime) as [signatures |] eqn:Htable; [| discriminate].
    intros H. apply existsb_exists in H as (signature & Hin & Hm).
    exists mime, signatures, signature. repeat split; try done.
    + by apply list_elem_of_In.
    + by apply signatureMatches_prefix.
  - intros (mime & signatures & signature & -> & Hallowed & -> & Hin & Hpre).
    rewrite bool_decide_eq_true_2 by done. simpl.
    apply existsb_exists. exists signature. split.
    + by apply list_elem_of_In.
    + by apply signatureMatches_prefix.
Qed.

(** Two signatures of the table that both survive the change of one
    byte of a buffer are the same signature. *)
Lemma table_signatures_apart (m1 m2 : string) (s1 s2 : list (list byte))
    (sig1 sig2 buffer : list byte) (i : nat) (v : byte) :
  MAGIC_BYTES !! m1 = Some s1 -> sig1 ∈ s1 ->
  MAGIC_BYTES !! m2 = Some s2 -> sig2 ∈ s2 ->
  sig1 `prefix_of` buffer ->
  sig2 `prefix_of` <[i := v]> buffer ->
  sig1 = sig2.
Proof.
  intros H1 Hin1 H2 Hin2 [rest ->] Hpre.
  apply signatureMatches_prefix in Hpre.
  rewrite signatureMatches_lookup in Hpre.
  apply MAGIC_BYTES_cases in H1 as [[_ ->] | [[_ ->] | [[_ ->] | [_ ->]]]];
    apply list_elem_of_singleton in Hin1 as ->;
    apply MAGIC_BYTES_cases in H2 as [[_ ->] | [[_ ->] | [[_ ->] | [_ ->]]]];
    apply list_elem_of_singleton in Hin2 as ->;
    try reflexivity; exfalso;
    pose proof (Hpre 0%nat) as E0; pose proof (Hpre 1%nat) as E1;
    pose proof (Hpre 2%nat) as E2; pose proof (Hpre 3%nat) as E3;
    do 4 (try destruct i as [| i]); cbn in E0, E1, E2, E3;
    try (specialize (E0 ltac:(lia)); discriminate E0);
    try (specialize (E1 ltac:(lia)); discriminate E1);
    try (specialize (E2 ltac:(lia)); discriminate E2);
    try (specialize (E3 ltac:(lia)); discriminate E3).
Qed.

(** C4, as stated, fails: a buffer that starts with the signature
    registered for WEBP, [RIFF], is rejected when the sniffed type is not
    an allowed image type. *)
Lemma signature_prefix_not_sufficient :
  MAGIC_BYTES !! "image/webp" = Some [[x52; x49; x46; x46]]
  /\ [x52; x49; x46; x46] `prefix_of` riffWave
  /\ validateFileSignature riffSniffer defaultConfig riffWave = false.
Proof.
  split; [reflexivity | split; [| vm_compute; reflexivity]].
  by eexists.
Qed.

(** C4, amended. For a format of the table and a buffer that starts
    with its registered signature: the buffer validates when type
    sniffing yields that format and the format is allowed; and after any
    byte of the signature prefix is changed, validation rejects the
    buffer, whatever the sniffer then reports. *)
Theorem signature_validation fromBuffer config (mime : string)
    (signatures : list (list byte)) (signature buffer : list byte) :
  MAGIC_BYTES !! mime = Some signatures ->
  signature ∈ signatures ->
  signature `prefix_of` buffer ->
  (fromBuffer buffer = Some mime -> mime ∈ allowedMimeTypes config ->
   validateFileSignature fromBuffer config buffer = true)
  /\ (forall (i : nat) (v : byte),
        (i < length signature)%nat -> buffer !! i ≠ Some v ->
        validateFileSignature fromBuffer config (<[i := v]> buffer) = false).
Proof.
  intros Htable Hin Hpre. split.
  - intros Hsniff Hallowed. apply validateFileSignature_true.
    by exists mime, signatures, signature.
  - intros i v Hi Hv.
    destruct (validateFileSignature fromBuffer config (<[i := v]> buffer)) eqn:Hval;
      [| reflexivity].
    exfalso.
    apply validateFileSignature_true in Hval
      as (mime' & signatures' & signature' & _ & _ & Htable' & Hin' & Hpre').
    assert (signature = signature') as <-
      by (apply (table_signatures_apart mime mime' signatures signatures'
                   signature signature' buffer i v); assumption).
    destruct Hpre as [rest ->]. destruct Hpre' as [rest' Heq].
    assert (Hlook : (<[i := v]> (signature ++ rest)) !! i = signature !! i)
      by (rewrite Heq; by apply lookup_app_l).
    rewrite list_lookup_insert_eq in Hlook
      by (rewrite length_app; lia).
    apply Hv. rewrite lookup_app_l by done. by rewrite <- Hlook.
Qed.

(** A PNG header is accepted, and rejected once its second byte is
    changed. *)
Lemma signature_validation_witness :
  validateFileSignature pngSniffer defaultConfig pngHeader = true
  /\ validateFileSignature pngSniffer defaultConfig (<[1%nat := x51]> pngHeader) = false.
Proof.
  destruct (signature_validation pngSniffer defaultConfig "image/png"
              [[x89; x50; x4e; x47; x0d; x0a; x1a; x0a]]
              [x89; x50; x4e; x47; x0d; x0a; x1a; x0a] pngHeader) as [Hacc Hrej].
  - reflexivity.
  - apply list_elem_of_singleton. reflexivity.
  - exists [x00; x00]. reflexivity.
  - split.
    + apply Hacc; [reflexivity |].
      apply list_elem_of_In. simpl. tauto.
    + apply Hrej; [simpl; lia | discriminate].
Defined.

End SignatureValidation.

(** ** The operation pipeline *)

Section OperationPipeline.

Import ImageProcessor.

Lemma foldl_applyOperation (operations : list ImageOperation) (pipeline : Sharp) :
  foldl applyOperation pipeline operations = pipeline ++ (operations ≫= transformOf).
Proof.
  revert pipeline. induction operations as [| op operations IH]; intros pipeline.
  - simpl. by rewrite app_nil_r.
  - simpl. rewrite IH. destruct op; simpl;
      unfold applyResize, applyCrop; by rewrite <- ?app_assoc.
Qed.

Lemma foldl_extractSetting (operations : list ImageOperation) (f : Format) (q : Z) :
  foldl extractSetting (f, q) operations
    = (default f (lastConvert operations), default q (lastQuality operations)).
Proof.
  unfold lastConvert, lastQuality.
  induction operations as [| op operations IH] using rev_ind; [reflexivity |].
  rewrite foldl_app, IH, !omap_app. simpl.
  destruct op; simpl; rewrite ?app_nil_r, ?last_snoc; reflexivity.
Qed.

Lemma applyOutputFormat_encoder (pipeline : Sharp) (f : Format) (q : Z) :
  applyOutputFormat pipeline f q = pipeline ++ [encoderOf f q].
Proof. by destruct f. Qed.

Lemma buildPipeline_eq (operations : list ImageOperation) :
  buildPipeline operations =
    let f := default jpeg (lastConvert operations) in
    let q := default 80 (lastQuality operations) in
    (sharp_rotate :: (operations ≫= transformOf) ++ [encoderOf f q], (f, q)).
Proof.
  unfold buildPipeline.
  rewrite foldl_extractSetting, foldl_applyOperation, applyOutputFormat_encoder.
  reflexivity.
Qed.

(** C5. Whatever the list, the output format is the format of its last
    [Convert] entry and the output quality the level of its last
    [Quality] entry; the pipeline holds one call per [Resize] and [Crop]
    entry, in order, and none for [Convert] and [Quality], whose only
    trace is the encoder call that closes it. For
    [[Resize{100,100}; Convert{webp}; Quality{50}; Convert{png}]] the
    format is png and the quality 50. *)
Theorem convert_quality_last_wins (operations : list ImageOperation) :
  outputFormatOf operations = default jpeg (lastConvert operations)
  /\ outputQualityOf operations = default 80 (lastQuality operations)
  /\ pipelineOf operations
     = sharp_rotate :: (operations ≫= transformOf)
       ++ [encoderOf (outputFormatOf operations) (outputQualityOf operations)]
  /\ outputFormatOf [Resize_ 100 100; Convert_ webp; Quality_ 50; Convert_ png] = png
  /\ outputQualityOf [Resize_ 100 100; Convert_ webp; Quality_ 50; Convert_ png] = 50.
Proof.
  unfold outputFormatOf, outputQualityOf, pipelineOf.
  rewrite buildPipeline_eq. simpl. repeat split; reflexivity.
Qed.

(** The cases of tests/processor.test.ts. *)
Example extension_jpeg : getExtensionFromFormat "jpeg" = ext_string "jpg".
Proof. reflexivity. Qed.

Example extension_png : getExtensionFromFormat "png" = ext_string "png".
Proof. reflexivity. Qed.

Example extension_webp : getExtensionFromFormat "webp" = ext_string "webp".
Proof. reflexivity. Qed.

Example extension_unknown : getExtensionFromFormat "unknown" = ext_string "jpg".
Proof. reflexivity. Qed.

Example round_half_up : Math_round (5 # 2) = 3 /\ Math_round (-3 # 2) = -1.
Proof. split; reflexivity. Qed.

(** Crop and resize keep the order of the request. *)
Example crop_then_resize :
  pipelineOf [Crop {| crop_x := 1 # 2; crop_y := 0; crop_width := 10; crop_height := 10 |};
              Resize_ 5 5]
    = [sharp_rotate; sharp_extract 1 0 10 10;
       sharp_resize (Some 5) (Some 5) cover false; sharp_jpeg 80 true].
Proof. reflexivity. Qed.

Example pipeline_of_example :
  pipelineOf [Resize_ 100 100; Convert_ webp; Quality_ 50; Convert_ png]
    = [sharp_rotate; sharp_resize (Some 100) (Some 100) cover false; sharp_png 50 9].
Proof. reflexivity. Qed.

Lemma no_setting_last (operations : list ImageOperation) :
  Forall (fun op => isSetting op = false) operations ->
  lastConvert operations = None /\ lastQuality operations = None.
Proof.
  unfold lastConvert, lastQuality.
  induction 1 as [| op operations Hop _ [IHc IHq]]; [done |].
  destruct op; try discriminate; simpl; auto.
Qed.

(** C6. With the empty operation list [processImage] runs the image
    library on the orientation pass followed by the JPEG encoder at
    quality 80, and resolves with what the library returns; the format
    jpeg and the quality 80 also close the pipeline of every list that
    has no [Convert] and no [Quality] entry. *)
Theorem empty_list_defaults render (now : Z) (inputPath outputPath : path)
    (w : World) (input output : list Byte.byte) (fmt : string) (d' : node) :
  fs.readFile inputPath (disk w) = inr input ->
  render [sharp_rotate; sharp_jpeg 80 true] input = inr (output, fmt) ->
  fs.writeFile outputPath output now (disk w) = inr d' ->
  Routes.processImage render now inputPath outputPath [] w
    = ({| disk := d'; cache := cache w |}, Ok (StorageService.byteSize output, fmt))
  /\ buildPipeline [] = ([sharp_rotate; sharp_jpeg 80 true], (jpeg, 80))
  /\ forall operations : list ImageOperation,
       Forall (fun op => isSetting op = false) operations ->
       outputFormatOf operations = jpeg
       /\ outputQualityOf operations = 80
       /\ pipelineOf operations
          = sharp_rotate :: (operations ≫= transformOf) ++ [sharp_jpeg 80 true].
Proof.
  intros Hread Hrender Hwrite. split; [| split; [reflexivity |]].
  - unfold Routes.processImage, try_catch, bind, getDisk, putDisk, await, ret.
    simpl. rewrite Hread. unfold pipelineOf. simpl. rewrite Hrender, Hwrite.
    reflexivity.
  - intros operations Hno. apply no_setting_last in Hno as [Hc Hq].
    unfold outputFormatOf, outputQualityOf, pipelineOf.
    rewrite buildPipeline_eq, Hc, Hq. simpl. auto.
Qed.

(** The empty list on a disk with one upload, and a list with a single
    [Resize]. *)
Lemma empty_list_defaults_witness :
  Routes.processImage echoRender 1000 ["raw"; "a.jpg"] ["processed"; "out.jpg"] []
      {| disk := oneUploadDisk [Byte.xff; Byte.xd8; Byte.xff] 0; cache := ∅ |}
    = ({| disk := Dir (<["raw" := Dir (<["a.jpg" := File [Byte.xff; Byte.xd8; Byte.xff] 0]> ∅)]>
                      (<["processed" :=
                           Dir (<["out.jpg" := File [Byte.xff; Byte.xd8; Byte.xff] 1000]> ∅)]> ∅));
          cache := ∅ |}, Ok (3, "jpeg"))
  /\ outputFormatOf [Resize_ 100 100] = jpeg
  /\ outputQualityOf [Resize_ 100 100] = 80.
Proof.
  pose proof (empty_list_defaults echoRender 1000 ["raw"; "a.jpg"] ["processed"; "out.jpg"]
                {| disk := oneUploadDisk [Byte.xff; Byte.xd8; Byte.xff] 0; cache := ∅ |}
                [Byte.xff; Byte.xd8; Byte.xff] [Byte.xff; Byte.xd8; Byte.xff] "jpeg"
                (Dir (<["raw" := Dir (<["a.jpg" := File [Byte.xff; Byte.xd8; Byte.xff] 0]> ∅)]>
                      (<["processed" :=
                           Dir (<["out.jpg" := File [Byte.xff; Byte.xd8; Byte.xff] 1000]> ∅)]> ∅))))
    as H.
  destruct H as (Hrun & _ & Hall).
  - vm_compute. reflexivity.
  - reflexivity.
  - vm_compute. reflexivity.
  - split; [exact Hrun |].
    destruct (Hall [Resize_ 100 100]) as (Hf & Hq & _).
    + repeat constructor.
    + split; [exact Hf | exact Hq].
Defined.

End OperationPipeline.

(** ** The disk quota *)

Section DiskQuota.

Import StorageService.

Lemma calculateDirectorySize_insert (files : gmap string node) (name : string) (file : node) :
  files !! name = None ->
  calculateDirectorySize (Dir (<[name := file]> files))
    = calculateDirectorySize (Dir files) + entryBytes file.
Proof.
  intros Hfresh. simpl. rewrite map_fold_insert_L; [| | exact Hfresh].
  - by destruct file.
  - intros j1 j2 z1 z2 y _ _ _. destruct z1, z2; lia.
Qed.

Lemma TotalBytes_sound (directory : node) (total : Z) :
  TotalBytes directory total -> calculateDirectorySize directory = total.
Proof.
  induction 1 as [| name content mtimeMs entries total Hfresh _ IH
                  | name sub entries total subtotal Hfresh _ IH _ IHsub].
  - reflexivity.
  - rewrite calculateDirectorySize_insert by done. by rewrite IH.
  - rewrite calculateDirectorySize_insert by done.
    change (entryBytes (Dir sub)) with (calculateDirectorySize (Dir sub)).
    by rewrite IH, IHsub.
Qed.

Lemma weight_insert (entries : gmap string node) (name : string) (child : node) :
  entries !! name = None ->
  weight (Dir (<[name := child]> entries)) = (weight (Dir entries) + weight child)%nat.
Proof.
  intros Hfresh. simpl. rewrite map_fold_insert_L; [lia | | exact Hfresh].
  intros. lia.
Qed.

Lemma TotalBytes_complete (entries : gmap string node) :
  TotalBytes (Dir entries) (calculateDirectorySize (Dir entries)).
Proof.
  remember (weight (Dir entries)) as n eqn:Hn.
  assert (Hle : (weight (Dir entries) <= n)%nat) by lia. clear Hn.
  revert entries Hle. induction n as [| n IHn]; intros entries.
  { simpl. lia. }
  induction entries as [| name child entries Hfresh IH] using map_ind; intros Hle.
  - apply TotalBytes_empty.
  - rewrite weight_insert in Hle by done.
    rewrite calculateDirectorySize_insert by done.
    assert (Hrest : (weight (Dir entries) <= S n)%nat) by lia.
    assert (Hpos : (1 <= weight (Dir entries))%nat) by (simpl; lia).
    destruct child as [content mtimeMs | sub].
    + apply TotalBytes_file; [done | by apply IH].
    + apply TotalBytes_dir; [done | by apply IH |].
      apply IHn. lia.
Qed.

(** C7, as stated, fails: the files under [raw/] and [processed/] sum to
    3 bytes, below a ceiling of 5, and the check answers false, because
    it also counts the 4 bytes of [metadata.json]. *)
Lemma quota_counts_snapshot :
  exists rawRoot processedRoot,
    fs.stat rawDir smallDisk = inr rawRoot
    /\ fs.stat processedDir smallDisk = inr processedRoot
    /\ TotalBytes rawRoot 3
    /\ TotalBytes processedRoot 0
    /\ 3 + 0 < maxDiskQuota smallQuota
    /\ checkDiskQuota smallQuota smallDisk = false.
Proof.
  exists (Dir (<["a.jpg" := File [Byte.xff; Byte.xd8; Byte.xff] 0]> ∅)), (Dir ∅).
  split; [reflexivity |]. split; [reflexivity |]. split.
  - apply (TotalBytes_file "a.jpg" [Byte.xff; Byte.xd8; Byte.xff] 0 ∅ 0);
      [reflexivity | apply TotalBytes_empty].
  - split; [apply TotalBytes_empty |]. split; [reflexivity |].
    vm_compute. reflexivity.
Qed.

(** C7, amended. [checkDiskQuota] answers true exactly when the sum of
    the byte sizes of all files below the upload directory, which holds
    [raw/], [processed/] and the catalog snapshot, is strictly below the
    configured ceiling. *)
Theorem checkDiskQuota_spec (config : AppConfig) (entries : gmap string node) :
  exists total,
    TotalBytes (Dir entries) total
    /\ (forall t, TotalBytes (Dir entries) t -> t = total)
    /\ (checkDiskQuota config (Dir entries) = true <-> total < maxDiskQuota config).
Proof.
  exists (calculateDirectorySize (Dir entries)). split; [| split].
  - apply TotalBytes_complete.
  - intros t Ht. symmetry. by apply TotalBytes_sound.
  - unfold checkDiskQuota. apply bool_decide_eq_true.
Qed.

End DiskQuota.

(** ** The catalog: expiry sweep *)

Section CatalogSweep.

Import MetadataStore.

Variable JSON_stringify : Datatypes.list ImageMetadata -> Datatypes.list Byte.byte.
Variables now ttlMs : Z.

Abbreviation expired := (isExpired now ttlMs).
Abbreviation sweep := (foldl (cleanupStep now ttlMs)).

Lemma sweep_cons (c : gmap string ImageMetadata) (n : Z)
    (entry : string * ImageMetadata) (entries : Datatypes.list (string * ImageMetadata)) :
  sweep (c, n) (entry :: entries)
    = if bool_decide (expired entry.2)
      then sweep (base.delete entry.1 c, n + 1) entries
      else sweep (c, n) entries.
Proof.
  change (sweep (c, n) (entry :: entries))
    with (sweep (cleanupStep now ttlMs (c, n) entry) entries).
  unfold cleanupStep, isExpired. simpl.
  destruct (decide (now - timestamp entry.2 > ttlMs)) as [H | H].
  - by rewrite !bool_decide_eq_true_2 by exact H.
  - by rewrite !bool_decide_eq_false_2 by exact H.
Qed.

(** The loop only removes entries. *)
Lemma sweep_subset (entries : Datatypes.list (string * ImageMetadata))
    (c : gmap string ImageMetadata) (n : Z) (fid : string) (m : ImageMetadata) :
  (sweep (c, n) entries).1 !! fid = Some m -> c !! fid = Some m.
Proof.
  revert c n. induction entries as [| entry entries IH]; intros c n; [done |].
  rewrite sweep_cons. case_bool_decide as Hexp.
  - intros H%IH. apply lookup_delete_Some in H. tauto.
  - apply IH.
Qed.

(** It removes the key of every expired entry it visits. *)
Lemma sweep_removes (entries : Datatypes.list (string * ImageMetadata))
    (c : gmap string ImageMetadata) (n : Z) (fid : string) (m : ImageMetadata) :
  (fid, m) ∈ entries -> expired m -> (sweep (c, n) entries).1 !! fid = None.
Proof.
  revert c n. induction entries as [| entry entries IH]; intros c n Hin Hexp.
  - by apply elem_of_nil in Hin.
  - rewrite sweep_cons. apply elem_of_cons in Hin as [<- | Hin].
    + rewrite bool_decide_eq_true_2 by done. simpl.
      destruct (_ !! fid) as [m' |] eqn:Hl; [| done].
      apply sweep_subset in Hl. by rewrite lookup_delete_eq in Hl.
    + case_bool_decide as Hexp'; by apply IH.
Qed.

(** It keeps every key none of whose visited entries is expired. *)
Lemma sweep_keeps (entries : Datatypes.list (string * ImageMetadata))
    (c : gmap string ImageMetadata) (n : Z) (fid : string) :
  (forall m, (fid, m) ∈ entries -> ~ expired m) ->
  (sweep (c, n) entries).1 !! fid = c !! fid.
Proof.
  revert c n. induction entries as [| entry entries IH]; intros c n Hall; [done |].
  rewrite sweep_cons. case_bool_decide as Hexp.
  - rewrite IH by (intros m Hm; apply Hall; by right).
    apply lookup_delete_ne. intros <-. destruct entry as [k m].
    by apply (Hall m); [left |].
  - apply IH. intros m Hm. apply Hall. by right.
Qed.

(** The counter grows by the number of expired entries visited. *)
Lemma sweep_count (entries : Datatypes.list (string * ImageMetadata))
    (c : gmap string ImageMetadata) (n : Z) :
  (sweep (c, n) entries).2
    = n + Z.of_nat (length (filter (fun entry => expired entry.2) entries)).
Proof.
  revert c n. induction entries as [| entry entries IH]; intros c n.
  - simpl. lia.
  - rewrite sweep_cons, filter_cons. case_bool_decide as Hexp.
    + rewrite decide_True by done. rewrite IH. simpl. lia.
    + rewrite decide_False by done. apply IH.
Qed.

(** With nothing expired the loop changes nothing. *)
Lemma sweep_nothing (entries : Datatypes.list (string * ImageMetadata))
    (c : gmap string ImageMetadata) (n : Z) :
  Forall (fun entry => ~ expired entry.2) entries ->
  sweep (c, n) entries = (c, n).
Proof.
  induction 1 as [| entry entries Hentry _ IH]; [done |].
  rewrite sweep_cons. by rewrite bool_decide_eq_false_2.
Qed.

(** The cache after one run of the loop over its own entries. *)
Lemma sweep_cache_lookup (c : gmap string ImageMetadata) (fid : string) (m : ImageMetadata) :
  (sweep (c, 0) (map_to_list c)).1 !! fid = Some m
    <-> c !! fid = Some m /\ ~ expired m.
Proof.
  split.
  - intros H. pose proof (sweep_subset _ _ _ _ _ H) as Hc. split; [done |].
    intros Hexp. apply elem_of_map_to_list in Hc.
    by rewrite (sweep_removes _ _ _ _ _ Hc Hexp) in H.
  - intros [Hc Hne]. rewrite sweep_keeps; [done |].
    intros m' Hm'%elem_of_map_to_list. congruence.
Qed.

Lemma save_eq (w : World) :
  save JSON_stringify now w
    = match fs.writeFile metadataPath (JSON_stringify (list (cache w))) now (disk w) with
      | inr d' => ({| disk := d'; cache := cache w |}, Ok tt)
      | inl e => (w, Throw (OtherError (errnoName e)))
      end.
Proof.
  unfold save, bind, getCache, getDisk, putDisk, await, ret, throw.
  by destruct (fs.writeFile _ _ _ _).
Qed.

Lemma save_cache (w : World) : cache (save JSON_stringify now w).1 = cache w.
Proof. rewrite save_eq. by destruct (fs.writeFile _ _ _ _). Qed.

Lemma cleanup_cache (w : World) :
  cache (cleanup JSON_stringify now ttlMs w).1 = (sweep (cache w, 0) (map_to_list (cache w))).1.
Proof.
  unfold cleanup, bind, getCache, putCache, ret.
  destruct (sweep _ _) as [c' deleted]. cbn [fst snd].
  case_bool_decide; [| done].
  pose proof (save_cache {| disk := disk w; cache := c' |}) as Hs.
  destruct (save _ _ _) as [w' [[] | e]]; exact Hs.
Qed.

Lemma cleanup_result (w : World) (k : Z) :
  (cleanup JSON_stringify now ttlMs w).2 = Ok k ->
  k = (sweep (cache w, 0) (map_to_list (cache w))).2.
Proof.
  unfold cleanup, bind, getCache, putCache, ret.
  destruct (sweep _ _) as [c' deleted]. cbn [fst snd].
  case_bool_decide; [| by intros [= <-]].
  destruct (save _ _ _) as [w' [[] | e]]; cbn [snd]; [by intros [= <-] | done].
Qed.

(** C8. At a fixed time, a sweep of the catalog that directly follows
    another one removes nothing: it resolves with 0 and leaves the state
    as the first sweep left it. The first sweep keeps exactly the records
    that are not older than the TTL, and the number it resolves with is
    the number of records that were. *)
Theorem cleanup_twice (w : World) :
  cleanup JSON_stringify now ttlMs (cleanup JSON_stringify now ttlMs w).1
    = ((cleanup JSON_stringify now ttlMs w).1, Ok 0)
  /\ (forall fid m,
        cache (cleanup JSON_stringify now ttlMs w).1 !! fid = Some m
          <-> cache w !! fid = Some m /\ ~ now - timestamp m > ttlMs)
  /\ (forall k,
        (cleanup JSON_stringify now ttlMs w).2 = Ok k ->
        k = Z.of_nat (length (filter (fun entry => now - timestamp entry.2 > ttlMs)
                                     (map_to_list (cache w))))).
Proof.
  assert (Hlook : forall fid m,
             cache (cleanup JSON_stringify now ttlMs w).1 !! fid = Some m
               <-> cache w !! fid = Some m /\ ~ expired m).
  { intros fid m. rewrite cleanup_cache. apply sweep_cache_lookup. }
  split; [| split; [exact Hlook |]].
  - set (w1 := (cleanup JSON_stringify now ttlMs w).1) in *.
    unfold cleanup at 1. unfold bind, getCache, putCache, ret.
    rewrite sweep_nothing.
    + rewrite bool_decide_eq_false_2 by lia. by destruct w1.
    + apply Forall_forall. intros [fid m] Hin%elem_of_map_to_list.
      apply Hlook in Hin. tauto.
  - intros k Hk%cleanup_result. rewrite sweep_count in Hk. rewrite Hk. simpl.
    f_equal.
Qed.

End CatalogSweep.

(** ** The catalog: start-up *)

Section CatalogStartup.

Import MetadataStore.

(** C2, as stated, fails: with a snapshot that does not parse, the store
    is constructed without any error and with an empty catalog. *)
Lemma corrupt_snapshot_not_fatal :
  fs.readFile metadataPath truncatedSnapshotDisk = inr [Byte.x5b]
  /\ parseEmptyArray [Byte.x5b] = None
  /\ create stringifyCount parseEmptyArray 1000 truncatedSnapshotDisk
     = ({| disk := truncatedSnapshotDisk; cache := ∅ |}, Ok tt).
Proof. repeat split. Qed.

Variable JSON_stringify : Datatypes.list ImageMetadata -> Datatypes.list Byte.byte.
Variable JSON_parse : Datatypes.list Byte.byte -> option (Datatypes.list ImageMetadata).

Lemma readFile_ENOENT_root (d : node) :
  fs.readFile metadataPath d = inl ENOENT ->
  exists entries, d = Dir entries /\ entries !! METADATA_FILE = None.
Proof.
  unfold fs.readFile, metadataPath. simpl.
  destruct d as [content mtimeMs | entries]; [discriminate |].
  destruct (entries !! METADATA_FILE) as [[? ? | ?] |] eqn:Hl; try discriminate.
  intros _. by exists entries.
Qed.

Lemma list_empty : list (∅ : gmap string ImageMetadata) = [].
Proof. unfold list. by rewrite map_to_list_empty. Qed.

(** C2, amended. When the snapshot exists but cannot be read or parsed,
    the construction of the store resolves without an error, the catalog
    in memory is empty, and nothing is written during initialisation;
    only when the file is absent is an empty snapshot written. *)
Theorem initialize_failure_modes (now : Z) (d : node) :
  (forall e, fs.readFile metadataPath d = inl e -> e <> ENOENT ->
     create JSON_stringify JSON_parse now d = ({| disk := d; cache := ∅ |}, Ok tt))
  /\ (forall data, fs.readFile metadataPath d = inr data -> JSON_parse data = None ->
     create JSON_stringify JSON_parse now d = ({| disk := d; cache := ∅ |}, Ok tt))
  /\ (fs.readFile metadataPath d = inl ENOENT ->
     exists entries,
       d = Dir entries
       /\ create JSON_stringify JSON_parse now d
          = ({| disk := Dir (<[METADATA_FILE := File (JSON_stringify []) now]> entries);
                cache := ∅ |}, Ok tt)).
Proof.
  unfold create, initialize, bind, getDisk. cbn [disk cache].
  split; [| split].
  - intros e -> Hne. by destruct e.
  - intros data -> ->. reflexivity.
  - intros Hread. destruct (readFile_ENOENT_root d Hread) as (entries & -> & Hfresh).
    exists entries. split; [reflexivity |]. rewrite Hread.
    rewrite save_eq. cbn [disk cache]. rewrite list_empty.
    unfold metadataPath. simpl. by rewrite Hfresh.
Qed.

End CatalogStartup.

(** The three cases on small disks: an unreadable snapshot (a directory
    in its place), an unparsable one, and none. *)
Lemma initialize_failure_modes_witness :
  MetadataStore.create stringifyCount parseEmptyArray 1000
      (Dir (<["metadata.json" := Dir ∅]> ∅))
    = ({| disk := Dir (<["metadata.json" := Dir ∅]> ∅); cache := ∅ |}, Ok tt)
  /\ MetadataStore.create stringifyCount parseEmptyArray 1000 truncatedSnapshotDisk
    = ({| disk := truncatedSnapshotDisk; cache := ∅ |}, Ok tt)
  /\ exists entries,
       Dir (<["raw" := Dir ∅]> ∅) = Dir entries
       /\ MetadataStore.create stringifyCount parseEmptyArray 1000 (Dir (<["raw" := Dir ∅]> ∅))
          = ({| disk := Dir (<[MetadataStore.METADATA_FILE := File (stringifyCount []) 1000]> entries);
                cache := ∅ |}, Ok tt).
Proof.
  split; [| split].
  - apply (proj1 (initialize_failure_modes stringifyCount parseEmptyArray 1000
                    (Dir (<["metadata.json" := Dir ∅]> ∅))) EISDIR);
      [reflexivity | discriminate].
  - apply (proj1 (proj2 (initialize_failure_modes stringifyCount parseEmptyArray 1000
                           truncatedSnapshotDisk)) [Byte.x5b]); reflexivity.
  - apply (proj2 (proj2 (initialize_failure_modes stringifyCount parseEmptyArray 1000
                           (Dir (<["raw" := Dir ∅]> ∅))))). reflexivity.
Defined.

(** ** Uploads and the quota *)

Section UploadQuota.

Import StorageService Routes.

Variable config : AppConfig.
Variable fromBuffer : list Byte.byte -> string + option string.
Variables extname parseName : string -> string.
Variable JSON_stringify : list ImageMetadata -> list Byte.byte.

Lemma stat_rawDir (d : node) (rawEntries : gmap string node) :
  fs.stat rawDir d = inr (Dir rawEntries) ->
  exists top, d = Dir top /\ top !! "raw" = Some (Dir rawEntries).
Proof.
  unfold rawDir, uploadDir. simpl.
  destruct d as [? ? | top]; [discriminate |].
  destruct (top !! "raw") as [child |] eqn:Hl; [| discriminate].
  intros [= ->]. by exists top.
Qed.

Lemma writeFile_raw (top rawEntries : gmap string node) (filename : string)
    (content : list Byte.byte) (now : Z) :
  top !! "raw" = Some (Dir rawEntries) ->
  rawEntries !! filename = None ->
  fs.writeFile (rawDir ++ [filename]) content now (Dir top)
    = inr (Dir (<["raw" := Dir (<[filename := File content now]> rawEntries)]> top)).
Proof.
  intros Hraw Hfresh. unfold rawDir, uploadDir. simpl. by rewrite Hraw, Hfresh.
Qed.

(** Removing the file just written gives the disk back. *)
Lemma deleteFile_written (top rawEntries : gmap string node) (filename : string)
    (content : list Byte.byte) (now : Z) :
  top !! "raw" = Some (Dir rawEntries) ->
  rawEntries !! filename = None ->
  deleteFile (rawDir ++ [filename])
      (Dir (<["raw" := Dir (<[filename := File content now]> rawEntries)]> top))
    = Dir top.
Proof.
  intros Hraw Hfresh. unfold deleteFile, rawDir, uploadDir. simpl.
  rewrite lookup_insert_eq. simpl. rewrite lookup_insert_eq.
  rewrite delete_insert_id by done. rewrite insert_insert_eq.
  by rewrite insert_id.
Qed.

(** A new file adds its size to the total. *)
Lemma calculateDirectorySize_written (top rawEntries : gmap string node)
    (filename : string) (content : list Byte.byte) (now : Z) :
  top !! "raw" = Some (Dir rawEntries) ->
  rawEntries !! filename = None ->
  calculateDirectorySize
      (Dir (<["raw" := Dir (<[filename := File content now]> rawEntries)]> top))
    = calculateDirectorySize (Dir top) + byteSize content.
Proof.
  intros Hraw Hfresh.
  rewrite <- (insert_delete_id top "raw" (Dir rawEntries)) at 2 by done.
  rewrite <- (insert_delete_eq top).
  rewrite !calculateDirectorySize_insert by apply lookup_delete_eq.
  change (entryBytes (Dir ?e)) with (calculateDirectorySize (Dir e)).
  rewrite (calculateDirectorySize_insert rawEntries) by done. simpl. lia.
Qed.

(** The handler on a request whose check of the quota fails: the stored
    file is deleted and the error 507 is passed on. *)
Lemma uploadHandler_over_quota (now : Z) (f : MulterFile) (w : World) :
  checkDiskQuota config (disk w) = false ->
  uploadHandler config fromBuffer parseName JSON_stringify now (Some f) w
    = ({| disk := deleteFile (file_path f) (disk w); cache := cache w |},
       Throw (AppError "Disk quota exceeded" 507)).
Proof.
  intros Hquota. unfold uploadHandler, bind, getDisk. rewrite Hquota. reflexivity.
Qed.

(** C3. An upload that arrives when the quota check answers false ends
    with the error "Disk quota exceeded" (status 507) and leaves the
    world as it was: the file multer had stored is removed again and the
    catalog is not touched. The upload is one that reaches the quota
    check, that is, one that multer accepts and stores: its declared type
    is in the allow-list, it has fewer bytes than the size limit, [raw/]
    exists and the fresh name of the file is not taken. *)
Theorem upload_over_quota_atomic (uuid : string) (now : Z) (part : UploadedPart)
    (w : World) (rawEntries : gmap string node) :
  part_mimetype part ∈ allowedMimeTypes config ->
  byteSize (part_content part) < maxFileSize config ->
  fs.stat rawDir (disk w) = inr (Dir rawEntries) ->
  rawEntries !! (uuid +:+ extname (part_originalname part)) = None ->
  checkDiskQuota config (disk w) = false ->
  postUpload config fromBuffer extname parseName JSON_stringify uuid now (Some part) w
    = (w, Throw (AppError "Disk quota exceeded" 507)).
Proof.
  intros Hmime Hsize Hstat Hfresh Hquota.
  destruct (stat_rawDir _ _ Hstat) as (top & Hdisk & Hraw).
  destruct w as [d c]. simpl in Hdisk, Hquota. subst d.
  unfold postUpload, bind at 1. unfold uploadSingle.
  rewrite bool_decide_eq_true_2 by done. cbn [negb].
  rewrite bool_decide_eq_false_2 by lia.
  unfold bind, getDisk, putDisk, await, ret. cbn [disk cache].
  rewrite (writeFile_raw top rawEntries) by done.
  rewrite uploadHandler_over_quota.
  - cbn [disk cache file_path]. by rewrite (deleteFile_written top rawEntries).
  - cbn [disk]. unfold checkDiskQuota in *.
    rewrite (calculateDirectorySize_written top rawEntries) by done.
    apply bool_decide_eq_false in Hquota. apply bool_decide_eq_false_2.
    unfold byteSize. lia.
Qed.

End UploadQuota.

(** A PNG upload that arrives when the disk already holds 7 bytes under a
    ceiling of 5. *)
Lemma upload_over_quota_atomic_witness :
  Routes.postUpload smallQuota (resolving pngSniffer) (fun _ => ".png") (fun _ => "u1")
      stringifyCount "u1" 1000 (Some pngPart) {| disk := smallDisk; cache := ∅ |}
    = ({| disk := smallDisk; cache := ∅ |}, Throw (AppError "Disk quota exceeded" 507)).
Proof.
  apply (upload_over_quota_atomic smallQuota (resolving pngSniffer) (fun _ => ".png")
           (fun _ => "u1")
           stringifyCount "u1" 1000 pngPart {| disk := smallDisk; cache := ∅ |}
           (<["a.jpg" := File [Byte.xff; Byte.xd8; Byte.xff] 0]> ∅)).
  - apply list_elem_of_In. simpl. tauto.
  - vm_compute. reflexivity.
  - reflexivity.
  - reflexivity.
  - vm_compute. reflexivity.
Defined.

(** ** Processing and the catalog record *)

Section ProcessRecord.

Import StorageService Routes.

Variable JSON_stringify : list ImageMetadata -> list Byte.byte.
Variable render : ImageProcessor.Sharp -> list Byte.byte
                  -> (string * option (list Byte.byte)) + (list Byte.byte * string).

Lemma bind_Ok {A B} (c : M A) (k : A -> M B) (w w' : World) (b : B) :
  bind c k w = (w', Ok b) ->
  exists a w1, c w = (w1, Ok a) /\ k a w1 = (w', Ok b).
Proof.
  unfold bind. destruct (c w) as [w1 [a | e]]; [| discriminate]. eauto.
Qed.

Lemma await_world {A} (r : Errno + A) (w w' : World) (res : result A) :
  await r w = (w', res) -> w' = w.
Proof. unfold await, ret, throw. destruct r; by intros [= <- _]. Qed.

(** [processImage] writes to the disk only. *)
Lemma processImage_cache (now : Z) (inputPath outputPath : path)
    (ops : list ImageOperation) (w : World) :
  cache (processImage render now inputPath outputPath ops w).1 = cache w.
Proof.
  unfold processImage, try_catch, bind, getDisk, putDisk, await, ret, throw.
  destruct (fs.readFile _ _) as [e | input]; [done |].
  destruct (render _ _) as [[message partial] | [output fmt]]; [done |].
  by destruct (fs.writeFile _ _ _ _).
Qed.

Lemma set_Ok (now : Z) (fid : string) (metadata : ImageMetadata) (w w' : World) :
  MetadataStore.set JSON_stringify now fid metadata w = (w', Ok tt) ->
  cache w' = <[fid := metadata]> (cache w).
Proof.
  unfold MetadataStore.set, bind, getCache, putCache.
  intros H. pose proof (save_cache JSON_stringify now
                          {| disk := disk w; cache := <[fid := metadata]> (cache w) |}) as Hs.
  destruct (MetadataStore.save _ _ _) as [w1 [[] | e]]; [| discriminate].
  injection H as <-. exact Hs.
Qed.

(** C9. When a processing call succeeds, the record of the file keeps
    its identifier, original name, size, content type, raw location and
    creation time; only the processed location and the list of applied
    operations are set. No other record changes. *)
Theorem process_updates_two_fields (uuid : string) (now : Z) (body : ProcessRequest)
    (w w' : World) (response : ProcessResponse) :
  processHandler JSON_stringify render uuid now body w = (w', Ok response) ->
  exists fid ops meta meta',
    req_fileId body = Some fid
    /\ req_operations body = Some ops
    /\ cache w !! fid = Some meta
    /\ cache w' !! fid = Some meta'
    /\ fileId meta' = fileId meta
    /\ originalName meta' = originalName meta
    /\ size meta' = size meta
    /\ mimeType meta' = mimeType meta
    /\ rawPath meta' = rawPath meta
    /\ timestamp meta' = timestamp meta
    /\ operations meta' = Some ops
    /\ (exists outputPath, processedPath meta' = Some outputPath)
    /\ forall other, other <> fid -> cache w' !! other = cache w !! other.
Proof.
  unfold processHandler. intros H.
  destruct (req_fileId body) as [fid |]; [| discriminate].
  destruct (req_operations body) as [ops |]; [| discriminate].
  case_bool_decide as Hempty; [discriminate |].
  apply bind_Ok in H as (found & w0 & Hget & H).
  unfold MetadataStore.get in Hget. injection Hget as <- <-.
  destruct (cache w !! fid) as [meta |] eqn:Hmeta; [| discriminate].
  apply bind_Ok in H as ([] & w1 & Haccess & H).
  assert (w1 = w) as ->.
  { unfold try_catch, bind, getDisk in Haccess.
    destruct (await _ w) as [w2 [[] | e]] eqn:Ha.
    - apply await_world in Ha. congruence.
    - discriminate. }
  apply bind_Ok in H as (result & w2 & Hproc & H).
  apply bind_Ok in H as ([] & w3 & Hset & H).
  injection H as <- _.
  apply set_Ok in Hset.
  pose proof (processImage_cache now (rawPath meta)
                (getProcessedPath
                   (ImageProcessor.generateFilename uuid
                      (ImageProcessor.getExtensionFromFormat
                         (foldl routeFormatStep "jpeg" ops)))) ops w) as Hc.
  rewrite Hproc in Hc. simpl in Hc. rewrite Hc in Hset.
  eexists fid, ops, meta, _. rewrite Hset, lookup_insert_eq.
  repeat split; try done.
  - eexists. reflexivity.
  - intros other Hne. by rewrite lookup_insert_ne.
Qed.

End ProcessRecord.

(** The upload of time 0, processed at time 5000: its record keeps the
    creation time 0. *)
Lemma process_updates_two_fields_witness :
  exists meta',
    cache catProcessed !! "a" = Some meta'
    /\ timestamp meta' = 0
    /\ rawPath meta' = ["raw"; "a.jpg"]
    /\ operations meta' = Routes.req_operations catRequest.
Proof.
  destruct (process_updates_two_fields stringifyCount echoRender "u2" 5000
              catRequest catWorld catProcessed
              {| Routes.pr_fileId := "a";
                 Routes.pr_downloadUrl := "/api/images/processed/u2.png";
                 Routes.pr_processedSize := 3 |})
    as (fid & ops & meta & meta' & Hfid & Hops & Hmeta & Hmeta' & _ & _ & _ & _
        & Hraw & Htime & Hoper & _).
  - vm_compute. reflexivity.
  - injection Hfid as <-. injection Hops as <-.
    assert (Hc : cache catWorld !! "a" = Some catRecord) by reflexivity.
    rewrite Hc in Hmeta. injection Hmeta as <-.
    exists meta'. repeat split; assumption.
Defined.

(** ** The retention sweep *)

Section DirectorySweep.

Import StorageService.

Variables now ttlMs : Z.
Variable name : string.
Variable top : gmap string node.

(** The loop of [cleanupDirectory] over names that are all present and
    pairwise different. *)
Lemma cleanupLoop_lookup (files : list string) (es : gmap string node) :
  NoDup files ->
  (forall f, f ∈ files -> is_Some (es !! f)) ->
  exists es',
    cleanupLoop [name] now ttlMs files (Dir (<[name := Dir es]> top))
      = Dir (<[name := Dir es']> top)
    /\ forall k,
         es' !! k = if decide (k ∈ files)
                    then n ← es !! k; (if isStale now ttlMs n then None else Some n)
                    else es !! k.
Proof.
  revert es. induction files as [| f files IH]; intros es Hnd Hall.
  - exists es. split; [reflexivity |]. intros k. rewrite decide_False; [done |].
    apply not_elem_of_nil.
  - apply NoDup_cons in Hnd as [Hf Hnd].
    destruct (Hall f ltac:(left)) as [n Hn].
    assert (Hstat : fs.stat ([name] ++ [f]) (Dir (<[name := Dir es]> top)) = inr n).
    { simpl. rewrite lookup_insert_eq. by rewrite Hn. }
    cbn [cleanupLoop]. rewrite Hstat.
    destruct n as [content mtimeMs | sub].
    + case_bool_decide as Hold.
      * assert (Hdel : deleteFile ([name] ++ [f]) (Dir (<[name := Dir es]> top))
                       = Dir (<[name := Dir (delete f es)]> top)).
        { unfold deleteFile. simpl. rewrite lookup_insert_eq. simpl. rewrite Hn.
          by rewrite insert_insert_eq. }
        rewrite Hdel.
        destruct (IH (delete f es) Hnd) as (es' & Hloop & Hlook).
        { intros g Hg. rewrite lookup_delete_ne by (intros ->; done).
          apply Hall. by right. }
        exists es'. split; [exact Hloop |]. intros k. rewrite Hlook.
        destruct (decide (k = f)) as [-> | Hne].
        -- rewrite decide_False by done. rewrite decide_True by left.
           rewrite lookup_delete_eq, Hn. simpl. by rewrite bool_decide_eq_true_2.
        -- rewrite lookup_delete_ne by done.
           destruct (decide (k ∈ files)) as [Hin | Hnin].
           ++ by rewrite decide_True by (by right).
           ++ rewrite decide_False; [done |]. intros [? | ?]%elem_of_cons; done.
      * destruct (IH es Hnd) as (es' & Hloop & Hlook).
        { intros g Hg. apply Hall. by right. }
        exists es'. split; [exact Hloop |]. intros k. rewrite Hlook.
        destruct (decide (k = f)) as [-> | Hne].
        -- rewrite decide_False by done. rewrite decide_True by left.
           rewrite Hn. simpl. by rewrite bool_decide_eq_false_2.
        -- destruct (decide (k ∈ files)) as [Hin | Hnin].
           ++ by rewrite decide_True by (by right).
           ++ rewrite decide_False; [done |]. intros [? | ?]%elem_of_cons; done.
    + destruct (IH es Hnd) as (es' & Hloop & Hlook).
      { intros g Hg. apply Hall. by right. }
      exists es'. split; [exact Hloop |]. intros k. rewrite Hlook.
      destruct (decide (k = f)) as [-> | Hne].
      * rewrite decide_False by done. rewrite decide_True by left.
        by rewrite Hn.
      * destruct (decide (k ∈ files)) as [Hin | Hnin].
        -- by rewrite decide_True by (by right).
        -- rewrite decide_False; [done |]. intros [? | ?]%elem_of_cons; done.
Qed.

(** [cleanupDirectory] removes exactly the stale files of a directory
    that lies directly below the upload directory. *)
Lemma cleanupDirectory_fresh (es : gmap string node) :
  top !! name = Some (Dir es) ->
  cleanupDirectory [name] now ttlMs (Dir top)
    = Dir (<[name := Dir (freshEntries now ttlMs es)]> top).
Proof.
  intros Htop. unfold cleanupDirectory, fs.readdir. simpl. rewrite Htop.
  rewrite <- (insert_id top name (Dir es)) at 1 by done.
  destruct (cleanupLoop_lookup (map_to_list es).*1 es) as (es' & -> & Hlook).
  - apply NoDup_fst_map_to_list.
  - intros f Hf. apply list_elem_of_fmap in Hf as ([k n] & -> & Hkn).
    apply elem_of_map_to_list in Hkn. by exists n.
  - f_equal. f_equal. f_equal. apply map_eq. intros k. rewrite Hlook.
    unfold freshEntries. rewrite map_lookup_filter.
    destruct (es !! k) as [n |] eqn:Hk; simpl.
    + rewrite decide_True.
      * destruct (isStale now ttlMs n) eqn:Hs; simpl.
        -- done.
        -- done.
      * apply list_elem_of_fmap. exists (k, n). split; [done |].
        by apply elem_of_map_to_list.
    + by case_decide.
Qed.

End DirectorySweep.

Section RetentionSweep.

(** What the timer job does: in [raw/] and in [processed/] it unlinks the
    regular files whose modification time is older than the TTL. *)
Lemma cleanupJob_files (config : AppConfig) (now : Z)
    (top rawEntries processedEntries : gmap string node)
    (c : gmap string ImageMetadata) :
  top !! "raw" = Some (Dir rawEntries) ->
  top !! "processed" = Some (Dir processedEntries) ->
  let ttlMs := cleanupTtlHours config * 60 * 60 * 1000 in
  Server.cleanupJob config now {| disk := Dir top; cache := c |}
    = ({| disk := Dir (<["processed" := Dir (freshEntries now ttlMs processedEntries)]>
                      (<["raw" := Dir (freshEntries now ttlMs rawEntries)]> top));
          cache := c |}, Ok tt).
Proof.
  intros Hraw Hprocessed ttlMs.
  unfold Server.cleanupJob, bind, getDisk, putDisk. cbn [disk cache].
  unfold StorageService.cleanupOldFiles.
  change StorageService.rawDir with ["raw"].
  change StorageService.processedDir with ["processed"].
  fold ttlMs.
  rewrite (cleanupDirectory_fresh now ttlMs "raw" top rawEntries) by done.
  rewrite (cleanupDirectory_fresh now ttlMs "processed" _ processedEntries)
    by (by rewrite lookup_insert_ne).
  reflexivity.
Qed.

(** The timer job leaves the catalog as it finds it. *)
Lemma cleanupJob_cache (config : AppConfig) (now : Z) (w : World) :
  cache (Server.cleanupJob config now w).1 = cache w.
Proof. reflexivity. Qed.

(** C1 on the code. The record is older than the TTL of 24 hours; the
    job deletes both of its files and resolves, and the catalog still
    returns the record. [MetadataStore.cleanup], which the job never
    calls, would have removed it. *)
Theorem sweep_keeps_expired_record :
  sweepTime - timestamp staleRecord > cleanupTtlHours defaultConfig * 60 * 60 * 1000
  /\ Server.cleanupJob defaultConfig sweepTime staleWorld = (sweptWorld, Ok tt)
  /\ fs.access ["raw"; "a.jpg"] (disk sweptWorld) = inl ENOENT
  /\ fs.access ["processed"; "u2.jpg"] (disk sweptWorld) = inl ENOENT
  /\ MetadataStore.get "a" sweptWorld = (sweptWorld, Ok (Some staleRecord))
  /\ cache (MetadataStore.cleanup stringifyCount sweepTime
              (cleanupTtlHours defaultConfig * 60 * 60 * 1000) staleWorld).1 !! "a" = None.
Proof.
  split; [reflexivity |]. split; [reflexivity |].
  split; [vm_compute; reflexivity |]. split; [vm_compute; reflexivity |].
  split; [vm_compute; reflexivity |]. vm_compute. reflexivity.
Qed.

End RetentionSweep.

(** * Further properties of the embedded code *)

(** ** The validator *)

Section ValidatorMore.

Import Byte Validation.

(** X1. [validateFileSignature] accepts a buffer exactly when the sniffed
    type is in the allow-list, is one of the four types of the table, and
    the buffer starts with the one signature registered for it. *)
Theorem validateFileSignature_accepts_iff fromBuffer config (buffer : list byte) :
  validateFileSignature fromBuffer config buffer = true <->
  exists mime signature,
    fromBuffer buffer = Some mime
    /\ mime ∈ allowedMimeTypes config
    /\ MAGIC_BYTES !! mime = Some [signature]
    /\ signature `prefix_of` buffer.
Proof.
  rewrite validateFileSignature_true. split.
  - intros (mime & signatures & signature & Hs & Ha & Ht & Hin & Hp).
    exists mime, signature. repeat split; try done.
    destruct (MAGIC_BYTES_cases _ _ Ht) as [[_ ->] | [[_ ->] | [[_ ->] | [_ ->]]]];
      apply list_elem_of_singleton in Hin as ->; exact Ht.
  - intros (mime & signature & Hs & Ha & Ht & Hp).
    exists mime, [signature], signature. repeat split; try done.
    by apply list_elem_of_singleton.
Qed.

(** X2. A buffer of fewer than three bytes is rejected, whatever the
    sniffer reports and whatever the allow-list holds. *)
Theorem validateFileSignature_short fromBuffer config (buffer : list byte) :
  (length buffer < 3)%nat ->
  validateFileSignature fromBuffer config buffer = false.
Proof.
  intros Hlen.
  destruct (validateFileSignature fromBuffer config buffer) eqn:Hval; [| reflexivity].
  exfalso. apply validateFileSignature_true in Hval
    as (mime & signatures & signature & _ & _ & Ht & Hin & Hp).
  apply prefix_length in Hp.
  destruct (MAGIC_BYTES_cases _ _ Ht) as [[_ ->] | [[_ ->] | [[_ ->] | [_ ->]]]];
    apply list_elem_of_singleton in Hin as ->; simpl in Hp; lia.
Qed.

Lemma validateFileSignature_short_witness :
  validateFileSignature pngSniffer defaultConfig [x89; x50] = false.
Proof. apply validateFileSignature_short. simpl. lia. Defined.

(** X3. Adding a type to the allow-list that has no entry in the table
    of signatures admits no file: a buffer sniffed as such a type is
    rejected. *)
Theorem validateFileSignature_untabled fromBuffer config (buffer : list byte)
    (mime : string) :
  fromBuffer buffer = Some mime ->
  MAGIC_BYTES !! mime = None ->
  validateFileSignature fromBuffer config buffer = false.
Proof.
  intros Hs Ht. unfold validateFileSignature. rewrite Hs, Ht.
  by case_bool_decide.
Qed.

Lemma validateFileSignature_untabled_witness :
  validateFileSignature (fun _ => Some "image/bmp")
      {| maxFileSize := 52428800;
         allowedMimeTypes := ["image/jpeg"; "image/bmp"];
         cleanupTtlHours := 24; cleanupIntervalHours := 6;
         maxDiskQuota := 10737418240 |}
      [x42; x4d; x00; x00] = false.
Proof.
  apply (validateFileSignature_untabled _ _ _ "image/bmp"); reflexivity.
Defined.

End ValidatorMore.

(** ** The processor *)

Section ProcessorMore.

Import ImageProcessor.

Lemma foldl_routeFormatStep (operations : list ImageOperation) (start : string) :
  foldl Routes.routeFormatStep start operations
    = default start (formatName <$> lastConvert operations).
Proof.
  unfold lastConvert.
  induction operations as [| op operations IH] using rev_ind; [reflexivity |].
  rewrite foldl_app, IH, omap_app. simpl.
  destruct op; simpl; rewrite ?app_nil_r, ?last_snoc; reflexivity.
Qed.

Lemma route_extension_eq (operations : list ImageOperation) :
  getExtensionFromFormat (foldl Routes.routeFormatStep "jpeg" operations)
    = ext_string (extensionOf (outputFormatOf operations)).
Proof.
  unfold outputFormatOf. rewrite buildPipeline_eq, foldl_routeFormatStep. cbn [fst snd].
  by destruct (lastConvert operations) as [[] |].
Qed.

(** On entries that carry their formats the two loops run in step. *)
Lemma formatSteps_agree (entries : list FormatEntry) (name : string) :
  name ∈ ["jpeg"; "png"; "webp"] ->
  Forall carriesFormat entries ->
  foldl formatStep (Some name) entries = Some (foldl Routes.formatEntryStep name entries)
  /\ foldl Routes.formatEntryStep name entries ∈ ["jpeg"; "png"; "webp"].
Proof.
  intros Hname Hall. revert name Hname.
  induction Hall as [| entry entries Hentry _ IH]; intros name Hname; [done |].
  cbn [foldl]. unfold formatStep at 2, Routes.formatEntryStep at 2 4.
  case_bool_decide as Htype; [| by apply IH].
  specialize (Hentry Htype).
  destruct (entry_format entry) as [name' |].
  - apply IH. apply list_elem_of_In in Hentry. simpl in Hentry.
    apply list_elem_of_In. simpl.
    destruct Hentry as [[= <-] | [[= <-] | [[= <-] | []]]]; tauto.
  - apply list_elem_of_In in Hentry. simpl in Hentry.
    by destruct Hentry as [? | [? | [? | []]]].
Qed.

Lemma extension_of_encoder (name : string) :
  name ∈ ["jpeg"; "png"; "webp"] ->
  getExtensionFromFormat name = ext_string (extensionOf (encoderFormat (Some name))).
Proof.
  intros H. apply list_elem_of_In in H. simpl in H.
  by destruct H as [<- | [<- | [<- | []]]].
Qed.

Lemma carriesFormat_formatEntryOf (operations : list ImageOperation) :
  Forall carriesFormat (formatEntryOf <$> operations).
Proof.
  apply Forall_fmap, Forall_forall. intros op _ Htype.
  destruct op as [? | ? | [f] | ?]; try discriminate Htype.
  apply list_elem_of_In. simpl. destruct f; tauto.
Qed.

Lemma foldl_formatStep_typed (operations : list ImageOperation) (f : Format) :
  foldl formatStep (Some (formatName f)) (formatEntryOf <$> operations)
    = Some (formatName (default f (lastConvert operations))).
Proof.
  unfold lastConvert.
  induction operations as [| op operations IH] using rev_ind; [reflexivity |].
  rewrite fmap_app, foldl_app, IH, omap_app. simpl.
  destruct op; simpl; rewrite ?app_nil_r, ?last_snoc; reflexivity.
Qed.

Lemma encoderFormat_formatName (f : Format) : encoderFormat (Some (formatName f)) = f.
Proof. by destruct f. Qed.

(** X4. The extension that the process route gives the output file and
    the encoder that [processImage] calls. They agree on every request
    whose conversions each carry one of the formats jpeg, png and webp,
    and so on every list of well-formed operations, where the encoder
    call is also the last call of the pipeline. They need not agree
    otherwise: a conversion without a format is skipped by the route,
    which keeps the extension chosen so far, and sends the processor to
    the JPEG encoder of the [default] branch; a conversion to gif names
    the file [.gif] and encodes JPEG. *)
Theorem route_extension_matches_encoder (entries : list FormatEntry)
    (operations : list ImageOperation) :
  (Forall carriesFormat entries ->
   getExtensionFromFormat (foldl Routes.formatEntryStep "jpeg" entries)
     = ext_string (extensionOf (encoderFormat (foldl formatStep (Some "jpeg") entries))))
  /\ (Forall carriesFormat (formatEntryOf <$> operations)
      /\ foldl Routes.routeFormatStep "jpeg" operations
         = foldl Routes.formatEntryStep "jpeg" (formatEntryOf <$> operations)
      /\ encoderFormat (foldl formatStep (Some "jpeg") (formatEntryOf <$> operations))
         = outputFormatOf operations
      /\ getExtensionFromFormat (foldl Routes.routeFormatStep "jpeg" operations)
         = ext_string (extensionOf (outputFormatOf operations))
      /\ last (pipelineOf operations)
         = Some (encoderOf (outputFormatOf operations) (outputQualityOf operations)))
  /\ (foldl Routes.formatEntryStep "jpeg"
        (entries ++ [{| entry_type := "convert"; entry_format := None |}])
      = foldl Routes.formatEntryStep "jpeg" entries
      /\ encoderFormat
           (foldl formatStep (Some "jpeg")
              (entries ++ [{| entry_type := "convert"; entry_format := None |}]))
         = jpeg)
  /\ (getExtensionFromFormat
        (foldl Routes.formatEntryStep "jpeg"
           (entries ++ [{| entry_type := "convert"; entry_format := Some "gif" |}]))
      = ext_string "gif"
      /\ encoderFormat
           (foldl formatStep (Some "jpeg")
              (entries ++ [{| entry_type := "convert"; entry_format := Some "gif" |}]))
         = jpeg).
Proof.
  split; [| split; [| split]].
  - intros Hall.
    destruct (formatSteps_agree entries "jpeg") as [Hstep Hin]; [| done |].
    { apply list_elem_of_In. simpl. tauto. }
    rewrite Hstep. by apply extension_of_encoder.
  - split; [apply carriesFormat_formatEntryOf |]. split; [by rewrite foldl_fmap |].
    split; [| split; [apply route_extension_eq |]].
    + change (Some "jpeg") with (Some (formatName jpeg)).
      rewrite (foldl_formatStep_typed operations jpeg), encoderFormat_formatName.
      unfold outputFormatOf. by rewrite buildPipeline_eq.
    + unfold outputFormatOf, outputQualityOf, pipelineOf.
      rewrite buildPipeline_eq. cbn [fst snd].
      by rewrite app_comm_cons, last_snoc.
  - by rewrite !foldl_app.
  - by rewrite !foldl_app.
Qed.

(** X5. [getExtensionFromFormat] answers with a string exactly for the
    names that are not members of [Object.prototype]: then with one of
    the four extensions of its table, and with [jpg] for every name other
    than [png], [webp] and [gif]. For a name such as [constructor] or
    [toString] the lookup finds the inherited member, which is truthy,
    and that member is returned in place of an extension. *)
Theorem getExtensionFromFormat_range (fmt : string) :
  (fmt ∉ Object_prototype ->
   exists ext,
     getExtensionFromFormat fmt = ext_string ext
     /\ ext ∈ ["jpg"; "png"; "webp"; "gif"]
     /\ (fmt ∉ ["png"; "webp"; "gif"] -> ext = "jpg"))
  /\ (fmt ∈ Object_prototype -> getExtensionFromFormat fmt = ext_inherited fmt).
Proof.
  unfold getExtensionFromFormat, formatMap. split.
  - intros Hown.
    destruct (decide (fmt = "jpeg")) as [-> | Hj];
      [exists "jpg"; split; [done |]; split; [set_solver | done] |].
    destruct (decide (fmt = "png")) as [-> | Hp];
      [exists "png"; split; [done |]; split; set_solver |].
    destruct (decide (fmt = "webp")) as [-> | Hw];
      [exists "webp"; split; [done |]; split; set_solver |].
    destruct (decide (fmt = "gif")) as [-> | Hg];
      [exists "gif"; split; [done |]; split; set_solver |].
    rewrite !lookup_insert_ne, lookup_empty by done.
    rewrite bool_decide_eq_false_2 by done.
    exists "jpg". split; [done |]. split; [set_solver | done].
  - intros Hin. apply list_elem_of_In in Hin. simpl in Hin.
    repeat (destruct Hin as [<- | Hin]; [reflexivity |]). destruct Hin.
Qed.

(** [Math.round] is within half a unit of its argument and keeps whole
    numbers. *)
Lemma Math_round_near (x : Q) :
  (inject_Z (Math_round x) - (1 # 2) <= x)%Q /\ (x < inject_Z (Math_round x) + (1 # 2))%Q.
Proof.
  unfold Math_round.
  pose proof (Qfloor_le (x + (1 # 2))) as Hle.
  pose proof (Qlt_floor (x + (1 # 2))) as Hlt.
  rewrite inject_Z_plus in Hlt. change (inject_Z 1) with 1%Q in Hlt.
  split; lra.
Qed.

Lemma Math_round_whole (z : Z) : Math_round (inject_Z z) = z.
Proof.
  destruct (Math_round_near (inject_Z z)) as [Hlo Hhi].
  set (r := Math_round (inject_Z z)) in *. clearbody r.
  assert (H1 : (inject_Z r < inject_Z (z + 1))%Q)
    by (rewrite inject_Z_plus; change (inject_Z 1) with 1%Q; lra).
  assert (H2 : (inject_Z z < inject_Z (r + 1))%Q)
    by (rewrite inject_Z_plus; change (inject_Z 1) with 1%Q; lra).
  rewrite <- Zlt_Qlt in H1, H2. lia.
Qed.

(** X6. [applyCrop] appends one [extract] call whose four numbers are
    the nearest integers of the requested ones, at most half a pixel
    away; a request in whole pixels is passed on unchanged. *)
Theorem applyCrop_rounding (pipeline : Sharp) (params : CropParams) :
  exists left top width height,
    applyCrop pipeline params = pipeline ++ [sharp_extract left top width height]
    /\ (inject_Z left - (1 # 2) <= crop_x params < inject_Z left + (1 # 2))%Q
    /\ (inject_Z top - (1 # 2) <= crop_y params < inject_Z top + (1 # 2))%Q
    /\ (inject_Z width - (1 # 2) <= crop_width params < inject_Z width + (1 # 2))%Q
    /\ (inject_Z height - (1 # 2) <= crop_height params < inject_Z height + (1 # 2))%Q
    /\ forall x y w h : Z,
         applyCrop pipeline {| crop_x := inject_Z x; crop_y := inject_Z y;
                               crop_width := inject_Z w; crop_height := inject_Z h |}
           = pipeline ++ [sharp_extract x y w h].
Proof.
  exists (Math_round (crop_x params)), (Math_round (crop_y params)),
         (Math_round (crop_width params)), (Math_round (crop_height params)).
  split; [reflexivity |].
  repeat split; try apply Math_round_near.
  intros x y w h. unfold applyCrop. cbn [crop_x crop_y crop_width crop_height].
  by rewrite !Math_round_whole.
Qed.

End ProcessorMore.

(** ** The store *)

Section StoreMore.

Import StorageService.

Lemma mkdir_top (name : string) (top : gmap string node) :
  fs.mkdir [name] (Dir top)
    = match top !! name with
      | Some (File _ _) => inl "EEXIST"
      | _ => inr (Dir (ensureDir name top))
      end.
Proof.
  unfold ensureDir. simpl.
  destruct (top !! name) as [[content mtimeMs | entries] |] eqn:Hl; simpl;
    [reflexivity | | reflexivity].
  by rewrite (insert_id _ _ _ Hl).
Qed.

Lemma ensureDir_lookup (name other : string) (top : gmap string node) (n : node) :
  top !! other = Some n -> ensureDir name top !! other = Some n.
Proof.
  intros H. unfold ensureDir. destruct (top !! name) eqn:Hl; [done |].
  rewrite lookup_insert_ne; [done |]. congruence.
Qed.

Lemma ensureDir_lookup_ne (name other : string) (top : gmap string node) :
  name <> other -> ensureDir name top !! other = top !! other.
Proof.
  intros Hne. unfold ensureDir. destruct (top !! name); [done |].
  by rewrite lookup_insert_ne.
Qed.

Lemma ensureDir_size (name : string) (top : gmap string node) :
  calculateDirectorySize (Dir (ensureDir name top)) = calculateDirectorySize (Dir top).
Proof.
  unfold ensureDir. destruct (top !! name) eqn:Hl; [done |].
  rewrite calculateDirectorySize_insert by done.
  change (entryBytes (Dir ∅)) with 0. lia.
Qed.

Lemma initialize_eq (top cwd : gmap string node) :
  initialize (Dir top) (Dir cwd)
    = match top !! "raw", top !! "processed", cwd !! "logs" with
      | Some (File _ _), _, _ => inl "EEXIST"
      | _, Some (File _ _), _ => inl "EEXIST"
      | _, _, Some (File _ _) => inl "EEXIST"
      | _, _, _ => inr (Dir (ensureDir "processed" (ensureDir "raw" top)),
                        Dir (ensureDir "logs" cwd))
      end.
Proof.
  unfold initialize. change rawDir with ["raw"]. change processedDir with ["processed"].
  rewrite mkdir_top.
  destruct (top !! "raw") as [[? ? | rawEntries] |] eqn:Hraw; [done | |];
    rewrite mkdir_top, ensureDir_lookup_ne by done;
    (destruct (top !! "processed") as [[? ? | ?] |]; [done | |]);
    rewrite mkdir_top; by destruct (cwd !! "logs") as [[? ? | ?] |].
Qed.

Lemma ensureDir_is_dir (name : string) (top : gmap string node) :
  (forall content mtimeMs, top !! name ≠ Some (File content mtimeMs)) ->
  exists entries, ensureDir name top !! name = Some (Dir entries).
Proof.
  intros Hfile. unfold ensureDir.
  destruct (top !! name) as [[content mtimeMs | entries] |] eqn:Hl.
  - by destruct (Hfile content mtimeMs).
  - by exists entries.
  - exists ∅. apply lookup_insert_eq.
Qed.

Lemma ensureDir_idemp (name : string) (top : gmap string node) :
  ensureDir name (ensureDir name top) = ensureDir name top.
Proof.
  unfold ensureDir at 1. destruct (ensureDir name top !! name) eqn:Hl; [done |].
  unfold ensureDir in Hl. destruct (top !! name) eqn:Ht; [congruence |].
  by rewrite lookup_insert_eq in Hl.
Qed.

(** X7. When [initialize] succeeds on an upload directory, [raw/] and
    [processed/] are directories afterwards, every entry that was there
    is still there unchanged, the total size is the same, and a second
    call succeeds and changes nothing. *)
Theorem initialize_idempotent (top cwd : gmap string node) (disk' cwd' : node) :
  initialize (Dir top) (Dir cwd) = inr (disk', cwd') ->
  exists top',
    disk' = Dir top'
    /\ (exists rawEntries, top' !! "raw" = Some (Dir rawEntries))
    /\ (exists processedEntries, top' !! "processed" = Some (Dir processedEntries))
    /\ (forall name n, top !! name = Some n -> top' !! name = Some n)
    /\ calculateDirectorySize disk' = calculateDirectorySize (Dir top)
    /\ initialize disk' cwd' = inr (disk', cwd').
Proof.
  rewrite initialize_eq. intros H.
  assert (Hr : forall content mtimeMs, top !! "raw" ≠ Some (File content mtimeMs)).
  { intros content mtimeMs Hl. by rewrite Hl in H. }
  assert (Hp : forall content mtimeMs, top !! "processed" ≠ Some (File content mtimeMs)).
  { intros content mtimeMs Hl. rewrite Hl in H.
    by destruct (top !! "raw") as [[? ? | ?] |]. }
  assert (Hl : forall content mtimeMs, cwd !! "logs" ≠ Some (File content mtimeMs)).
  { intros content mtimeMs Hl. rewrite Hl in H.
    destruct (top !! "raw") as [[? ? | ?] |]; [done | |];
      by destruct (top !! "processed") as [[? ? | ?] |]. }
  assert (Hout : disk' = Dir (ensureDir "processed" (ensureDir "raw" top))
                 /\ cwd' = Dir (ensureDir "logs" cwd)).
  { destruct (top !! "raw") as [[? ? | ?] |]; [done | |];
      (destruct (top !! "processed") as [[? ? | ?] |]; [done | |]);
      (destruct (cwd !! "logs") as [[? ? | ?] |]; [done | |]);
      by injection H as <- <-. }
  destruct Hout as [-> ->].
  exists (ensureDir "processed" (ensureDir "raw" top)).
  destruct (ensureDir_is_dir "raw" top Hr) as [rawEntries Hraw].
  assert (Hraw' : ensureDir "processed" (ensureDir "raw" top) !! "raw"
                  = Some (Dir rawEntries)) by (by apply ensureDir_lookup).
  destruct (ensureDir_is_dir "processed" (ensureDir "raw" top)) as [processedEntries Hproc].
  { intros content mtimeMs. rewrite ensureDir_lookup_ne by done. apply Hp. }
  destruct (ensureDir_is_dir "logs" cwd Hl) as [logsEntries Hlogs].
  split; [done |]. split; [by eauto |]. split; [by eauto |].
  split; [| split].
  - intros name n Hn. by do 2 apply ensureDir_lookup.
  - by rewrite !ensureDir_size.
  - rewrite initialize_eq, Hraw', Hproc, Hlogs.
    rewrite ensureDir_idemp.
    unfold ensureDir at 2. rewrite Hraw'.
    by rewrite ensureDir_idemp.
Qed.

(** An upload directory that holds only the snapshot, in an empty
    working directory. *)
Lemma initialize_idempotent_witness :
  exists top' cwd',
    top' !! "metadata.json" = Some (File emptyArrayText 0)
    /\ initialize (Dir top') cwd' = inr (Dir top', cwd').
Proof.
  destruct (initialize_idempotent (<["metadata.json" := File emptyArrayText 0]> ∅) ∅
              (Dir (<["processed" := Dir ∅]>
                   (<["raw" := Dir ∅]>
                   (<["metadata.json" := File emptyArrayText 0]> ∅))))
              (Dir (<["logs" := Dir ∅]> ∅)))
    as (top' & Hdisk & _ & _ & Hkeep & _ & Hagain).
  - vm_compute. reflexivity.
  - exists top', (Dir (<["logs" := Dir ∅]> ∅)). split.
    + apply Hkeep. reflexivity.
    + by rewrite <- Hdisk.
Defined.

(** X8. [initialize] fails exactly when a regular file stands where
    [raw/], [processed/] or [logs/] should be. *)
Theorem initialize_fails_iff (top cwd : gmap string node) :
  (exists e, initialize (Dir top) (Dir cwd) = inl e)
  <-> (exists content mtimeMs, top !! "raw" = Some (File content mtimeMs))
      \/ (exists content mtimeMs, top !! "processed" = Some (File content mtimeMs))
      \/ (exists content mtimeMs, cwd !! "logs" = Some (File content mtimeMs)).
Proof.
  rewrite initialize_eq. split.
  - intros [e H].
    destruct (top !! "raw") as [[c m | ?] |]; [left; eauto | |];
      (destruct (top !! "processed") as [[c m | ?] |]; [right; left; eauto | |]);
      (destruct (cwd !! "logs") as [[c m | ?] |]; [right; right; eauto | |]);
      discriminate.
  - intros [(c & m & ->) | [(c & m & ->) | (c & m & ->)]]; [eauto | |].
    + destruct (top !! "raw") as [[? ? | ?] |]; eauto.
    + destruct (top !! "raw") as [[? ? | ?] |]; [eauto | |];
        destruct (top !! "processed") as [[? ? | ?] |]; eauto.
Qed.

Lemma TotalBytes_nonneg (directory : node) (total : Z) :
  TotalBytes directory total -> 0 <= total.
Proof. induction 1; unfold byteSize in *; lia. Qed.

Lemma calculateDirectorySize_nonneg (directory : node) :
  0 <= calculateDirectorySize directory.
Proof.
  destruct directory as [content mtimeMs | entries]; [simpl; lia |].
  eapply TotalBytes_nonneg, TotalBytes_complete.
Qed.

Lemma calculateDirectorySize_replace (files : gmap string node) (name : string)
    (file : node) :
  calculateDirectorySize (Dir (<[name := file]> files))
    = calculateDirectorySize (Dir (delete name files)) + entryBytes file.
Proof.
  rewrite <- insert_delete_eq.
  apply calculateDirectorySize_insert, lookup_delete_eq.
Qed.

Lemma calculateDirectorySize_lookup (files : gmap string node) (name : string)
    (file : node) :
  files !! name = Some file ->
  calculateDirectorySize (Dir files)
    = calculateDirectorySize (Dir (delete name files)) + entryBytes file.
Proof.
  intros H. rewrite <- (insert_id files name file H) at 1.
  apply calculateDirectorySize_replace.
Qed.

(** X9. The total that [calculateDirectorySize] computes is never
    negative, and deleting a stored upload with [deleteFile] lowers it by
    exactly the size of that file. *)
Theorem deleteFile_frees_size (top rawEntries : gmap string node) (filename : string)
    (content : list Byte.byte) (mtimeMs : Z) :
  top !! "raw" = Some (Dir rawEntries) ->
  rawEntries !! filename = Some (File content mtimeMs) ->
  0 <= calculateDirectorySize (deleteFile (getRawPath filename) (Dir top))
  /\ calculateDirectorySize (deleteFile (getRawPath filename) (Dir top))
     = calculateDirectorySize (Dir top) - byteSize content.
Proof.
  intros Hraw Hfile. split; [apply calculateDirectorySize_nonneg |].
  assert (Hd : deleteFile (getRawPath filename) (Dir top)
               = Dir (<["raw" := Dir (delete filename rawEntries)]> top)).
  { unfold deleteFile, getRawPath, rawDir, uploadDir. simpl. rewrite Hraw. simpl.
    by rewrite Hfile. }
  rewrite Hd, calculateDirectorySize_replace.
  rewrite (calculateDirectorySize_lookup top "raw" (Dir rawEntries)) by done.
  change (entryBytes (Dir ?e)) with (calculateDirectorySize (Dir e)).
  rewrite (calculateDirectorySize_lookup rawEntries filename (File content mtimeMs))
    by done.
  change (entryBytes (File content mtimeMs)) with (byteSize content). lia.
Qed.

Lemma deleteFile_frees_size_witness :
  calculateDirectorySize (deleteFile (getRawPath "a.jpg") smallDisk)
    = calculateDirectorySize smallDisk - 3.
Proof.
  apply (deleteFile_frees_size _ (<["a.jpg" := File [Byte.xff; Byte.xd8; Byte.xff] 0]> ∅)
           "a.jpg" [Byte.xff; Byte.xd8; Byte.xff] 0); reflexivity.
Defined.

End StoreMore.

(** ** The file sweep of the timer job *)

Section FileSweepMore.

Import StorageService.

Variables now ttlMs : Z.

Lemma freshEntries_lookup (entries : gmap string node) (name : string) :
  freshEntries now ttlMs entries !! name
    = n ← entries !! name; if isStale now ttlMs n then None else Some n.
Proof.
  unfold freshEntries. rewrite map_lookup_filter.
  destruct (entries !! name) as [n |]; [| done]. simpl.
  by destruct (isStale now ttlMs n) eqn:Hs.
Qed.

Lemma freshEntries_idemp (entries : gmap string node) :
  freshEntries now ttlMs (freshEntries now ttlMs entries) = freshEntries now ttlMs entries.
Proof.
  apply map_eq. intros name. rewrite !freshEntries_lookup.
  destruct (entries !! name) as [n |]; [| done]. simpl.
  destruct (isStale now ttlMs n) eqn:Hs; simpl; [done |]. by rewrite Hs.
Qed.

(** [cleanupDirectory] on a name directly below the upload directory,
    whatever stands there. *)
Lemma cleanupDirectory_top (name : string) (top : gmap string node) :
  cleanupDirectory [name] now ttlMs (Dir top) = Dir (sweptEntry now ttlMs name top).
Proof.
  unfold sweptEntry.
  destruct (top !! name) as [[content mtimeMs | entries] |] eqn:Hl.
  - unfold cleanupDirectory, fs.readdir. simpl. by rewrite Hl.
  - by apply cleanupDirectory_fresh.
  - unfold cleanupDirectory, fs.readdir. simpl. by rewrite Hl.
Qed.

Lemma cleanupDirectory_file (p : path) (content : list Byte.byte) (mtimeMs : Z) :
  cleanupDirectory p now ttlMs (File content mtimeMs) = File content mtimeMs.
Proof. unfold cleanupDirectory, fs.readdir. by destruct p. Qed.

Lemma sweptEntry_lookup_ne (name other : string) (top : gmap string node) :
  name <> other -> sweptEntry now ttlMs name top !! other = top !! other.
Proof.
  intros Hne. unfold sweptEntry.
  destruct (top !! name) as [[? ? | ?] |]; try done. by rewrite lookup_insert_ne.
Qed.

Lemma sweptEntry_idemp (name : string) (top : gmap string node) :
  sweptEntry now ttlMs name (sweptEntry now ttlMs name top) = sweptEntry now ttlMs name top.
Proof.
  destruct (top !! name) as [[content mtimeMs | entries] |] eqn:Hl.
  - assert (E : sweptEntry now ttlMs name top = top)
      by (unfold sweptEntry; by rewrite Hl).
    by rewrite !E.
  - assert (E : sweptEntry now ttlMs name top
                = <[name := Dir (freshEntries now ttlMs entries)]> top)
      by (unfold sweptEntry; by rewrite Hl).
    rewrite E. unfold sweptEntry.
    by rewrite lookup_insert_eq, insert_insert_eq, freshEntries_idemp.
  - assert (E : sweptEntry now ttlMs name top = top)
      by (unfold sweptEntry; by rewrite Hl).
    by rewrite !E.
Qed.

Lemma sweptEntry_comm (name1 name2 : string) (top : gmap string node) :
  name1 <> name2 ->
  sweptEntry now ttlMs name1 (sweptEntry now ttlMs name2 top)
    = sweptEntry now ttlMs name2 (sweptEntry now ttlMs name1 top).
Proof.
  intros Hne.
  assert (Hgen : forall a b t,
             a <> b ->
             sweptEntry now ttlMs a (sweptEntry now ttlMs b t)
               = match t !! a with
                 | Some (Dir entries) =>
                     <[a := Dir (freshEntries now ttlMs entries)]>
                       (sweptEntry now ttlMs b t)
                 | _ => sweptEntry now ttlMs b t
                 end).
  { intros a b t Hab. unfold sweptEntry at 1.
    by rewrite sweptEntry_lookup_ne by done. }
  rewrite !Hgen by done. unfold sweptEntry.
  destruct (top !! name1) as [[? ? | e1] |] eqn:H1;
    destruct (top !! name2) as [[? ? | e2] |] eqn:H2; try done.
  by apply insert_insert_ne.
Qed.

End FileSweepMore.

Section TimerJobMore.

Variable config : AppConfig.
Variable now : Z.

Abbreviation ttlOf := (cleanupTtlHours config * 60 * 60 * 1000).

Lemma cleanupJob_eq (w : World) :
  Server.cleanupJob config now w
    = ({| disk := match disk w with
                  | Dir top =>
                      Dir (sweptEntry now ttlOf "processed" (sweptEntry now ttlOf "raw" top))
                  | File content mtimeMs => File content mtimeMs
                  end;
          cache := cache w |}, Ok tt).
Proof.
  unfold Server.cleanupJob, bind, getDisk, putDisk. cbn [disk cache].
  unfold StorageService.cleanupOldFiles.
  change StorageService.rawDir with ["raw"].
  change StorageService.processedDir with ["processed"].
  destruct (disk w) as [content mtimeMs | top].
  - by rewrite !cleanupDirectory_file.
  - by rewrite !cleanupDirectory_top.
Qed.

(** X10. The timer job, on any disk: in [raw/] and in [processed/] it
    removes the regular files whose modification time is more than the
    TTL ago and nothing else. Subdirectories and younger files stay, a
    missing directory is skipped, every other entry of the upload
    directory and the whole catalog are left alone, and the job resolves. *)
Theorem cleanupJob_exact (w : World) :
  Server.cleanupJob config now w
    = ({| disk := match disk w with
                  | Dir top =>
                      Dir (sweptEntry now ttlOf "processed" (sweptEntry now ttlOf "raw" top))
                  | File content mtimeMs => File content mtimeMs
                  end;
          cache := cache w |}, Ok tt)
  /\ (forall entries name,
        freshEntries now ttlOf entries !! name
          = match entries !! name with
            | Some (File content mtimeMs) =>
                if bool_decide (now - mtimeMs > ttlOf) then None
                else Some (File content mtimeMs)
            | other => other
            end)
  /\ (forall top name,
        name <> "raw" -> name <> "processed" ->
        sweptEntry now ttlOf "processed" (sweptEntry now ttlOf "raw" top) !! name
          = top !! name).
Proof.
  split; [apply cleanupJob_eq |]. split.
  - intros entries name. rewrite freshEntries_lookup.
    by destruct (entries !! name) as [[content mtimeMs | sub] |].
  - intros top name Hr Hp. by rewrite !sweptEntry_lookup_ne.
Qed.

(** X11. Running the timer job a second time at the same clock value
    changes nothing. *)
Theorem cleanupJob_idempotent (w : World) :
  Server.cleanupJob config now (Server.cleanupJob config now w).1
    = ((Server.cleanupJob config now w).1, Ok tt).
Proof.
  rewrite (cleanupJob_eq w). cbn [fst]. rewrite cleanupJob_eq. cbn [disk cache].
  destruct (disk w) as [content mtimeMs | top]; [reflexivity |].
  rewrite (sweptEntry_comm now ttlOf "raw" "processed") by done.
  by rewrite !sweptEntry_idemp.
Qed.

End TimerJobMore.

(** ** The catalog *)

Section CatalogCount.

Import MetadataStore.

Variable JSON_stringify : Datatypes.list ImageMetadata -> Datatypes.list Byte.byte.
Variables now ttlMs : Z.

Abbreviation sweepOf := (foldl (cleanupStep now ttlMs)).

(** Each removal of the loop takes one record out of the cache. *)
Lemma sweep_size (entries : Datatypes.list (string * ImageMetadata))
    (c : gmap string ImageMetadata) (n : Z) :
  NoDup entries.*1 ->
  (forall k m, (k, m) ∈ entries -> c !! k = Some m) ->
  Z.of_nat (base.size (sweepOf (c, n) entries).1) + (sweepOf (c, n) entries).2
    = Z.of_nat (base.size c) + n.
Proof.
  revert c n. induction entries as [| [k m] entries IH]; intros c n Hnd Hall.
  - reflexivity.
  - rewrite sweep_cons. rewrite fmap_cons in Hnd. apply NoDup_cons in Hnd as [Hk Hnd].
    case_bool_decide as Hexp.
    + cbn [fst snd]. rewrite IH; [| done |].
      * assert (Hc : c !! k = Some m) by (apply Hall; left).
        assert (Hs : base.size c = S (base.size (base.delete k c))).
        { rewrite <- (insert_delete_id c k m Hc) at 1.
          apply map_size_insert_None, lookup_delete_eq. }
        lia.
      * intros k' m' Hin. rewrite lookup_delete_ne.
        -- apply Hall. by right.
        -- intros <-. apply Hk. apply list_elem_of_fmap. by exists (k, m').
    + apply IH; [done |]. intros k' m' Hin. apply Hall. by right.
Qed.

(** X12. The number [cleanup] resolves with is the number of records by
    which the catalog has shrunk. *)
Theorem cleanup_count (w : World) (k : Z) :
  (cleanup JSON_stringify now ttlMs w).2 = Ok k ->
  k = Z.of_nat (base.size (cache w))
      - Z.of_nat (base.size (cache (cleanup JSON_stringify now ttlMs w).1)).
Proof.
  intros Hk%cleanup_result. rewrite cleanup_cache.
  pose proof (sweep_size (map_to_list (cache w)) (cache w) 0
                (NoDup_fst_map_to_list _)) as Hs.
  rewrite <- Hk in Hs. rewrite Z.add_0_r in Hs.
  rewrite <- Hs; [lia |]. intros k' m Hin. by apply elem_of_map_to_list.
Qed.

(** X13. When no record is older than the TTL, [cleanup] resolves with 0
    and leaves the catalog and the disk as they are: the snapshot is not
    rewritten. *)
Theorem cleanup_noop (w : World) :
  (forall fid m, cache w !! fid = Some m -> now - timestamp m <= ttlMs) ->
  cleanup JSON_stringify now ttlMs w = (w, Ok 0).
Proof.
  intros Hfresh. unfold cleanup, bind, getCache, putCache, ret.
  rewrite sweep_nothing.
  - rewrite bool_decide_eq_false_2 by lia. by destruct w.
  - apply Forall_forall. intros [fid m] Hin%elem_of_map_to_list.
    unfold isExpired. simpl. apply Hfresh in Hin. lia.
Qed.

End CatalogCount.

(** The record of [staleWorld], 25 hours old under a TTL of 24 hours, is
    the one record removed. *)
Lemma cleanup_count_witness :
  1 = Z.of_nat (base.size (cache staleWorld))
      - Z.of_nat (base.size (cache (MetadataStore.cleanup stringifyCount sweepTime
                                      (24 * 60 * 60 * 1000) staleWorld).1)).
Proof. apply cleanup_count. vm_compute. reflexivity. Defined.

(** One record of age 5 under a TTL of 10. *)
Lemma cleanup_noop_witness :
  MetadataStore.cleanup stringifyCount 5 10 catWorld = (catWorld, Ok 0).
Proof.
  apply cleanup_noop. intros fid m Hm.
  change (cache catWorld) with (<["a" := catRecord]> (∅ : gmap string ImageMetadata)) in Hm.
  apply lookup_insert_Some in Hm as [[_ <-] | [_ Hm]]; [simpl; lia |].
  by rewrite lookup_empty in Hm.
Defined.

Section CatalogPersistence.

Import MetadataStore.

Variable JSON_stringify : Datatypes.list ImageMetadata -> Datatypes.list Byte.byte.
Variable JSON_parse : Datatypes.list Byte.byte -> option (Datatypes.list ImageMetadata).

Lemma save_Ok (now : Z) (w w' : World) :
  save JSON_stringify now w = (w', Ok tt) ->
  cache w' = cache w
  /\ persisted JSON_stringify w'
  /\ exists top, disk w = Dir top
       /\ disk w' = Dir (<[METADATA_FILE := File (JSON_stringify (list (cache w))) now]> top).
Proof.
  rewrite save_eq. unfold metadataPath, persisted, metadataPath. simpl.
  destruct (disk w) as [content mtimeMs | top] eqn:Hd; [discriminate |].
  destruct (top !! METADATA_FILE) as [[? ? | ?] |] eqn:Hl; try discriminate;
    intros [= <-]; cbn [disk cache]; (split; [done |]); (split; [| by eauto]);
    unfold fs.readFile; simpl; by rewrite lookup_insert_eq.
Qed.

Lemma set_Ok_full (now : Z) (fid : string) (m : ImageMetadata) (w w' : World) :
  set JSON_stringify now fid m w = (w', Ok tt) ->
  cache w' = <[fid := m]> (cache w) /\ persisted JSON_stringify w'.
Proof.
  unfold set, bind, getCache, putCache. intros H.
  destruct (save JSON_stringify now _) as [w1 [[] | e]] eqn:Hs; [| discriminate].
  injection H as <-. apply save_Ok in Hs as (Hc & Hp & _). by rewrite Hc.
Qed.

Lemma delete_Ok_full (now : Z) (fid : string) (w w' : World) :
  delete JSON_stringify now fid w = (w', Ok tt) ->
  cache w' = base.delete fid (cache w) /\ persisted JSON_stringify w'.
Proof.
  unfold delete, bind, getCache, putCache. intros H.
  destruct (save JSON_stringify now _) as [w1 [[] | e]] eqn:Hs; [| discriminate].
  injection H as <-. apply save_Ok in Hs as (Hc & Hp & _). by rewrite Hc.
Qed.

Lemma sweep_count_zero (now ttlMs : Z) (entries : Datatypes.list (string * ImageMetadata))
    (c : gmap string ImageMetadata) (n : Z) :
  (foldl (cleanupStep now ttlMs) (c, n) entries).2 <= n ->
  foldl (cleanupStep now ttlMs) (c, n) entries = (c, n).
Proof.
  revert c n. induction entries as [| entry entries IH]; intros c n; [done |].
  rewrite sweep_cons. case_bool_decide as Hexp; [| apply IH].
  rewrite sweep_count. lia.
Qed.

(** X14. Every catalog mutation that resolves has been flushed: after
    [set] and after [delete] the snapshot file holds the serialised cache,
    which differs from the one before by exactly that record; and
    [cleanup] keeps snapshot and cache in agreement. *)
Theorem catalog_mutations_persist (now : Z) (w w' : World) :
  (forall fid m,
     set JSON_stringify now fid m w = (w', Ok tt) ->
     cache w' = <[fid := m]> (cache w) /\ persisted JSON_stringify w')
  /\ (forall fid,
     delete JSON_stringify now fid w = (w', Ok tt) ->
     cache w' = base.delete fid (cache w) /\ persisted JSON_stringify w')
  /\ (forall ttlMs k,
     persisted JSON_stringify w ->
     cleanup JSON_stringify now ttlMs w = (w', Ok k) ->
     persisted JSON_stringify w').
Proof.
  split; [| split].
  - intros fid m. apply set_Ok_full.
  - intros fid. apply delete_Ok_full.
  - intros ttlMs k Hp. unfold cleanup, bind, getCache, putCache, ret.
    destruct (foldl _ _ _) as [c' deleted] eqn:Hsweep. cbn [fst snd].
    case_bool_decide as Hdel.
    + destruct (save JSON_stringify now _) as [w1 [[] | e]] eqn:Hs; [| discriminate].
      intros [= <- _]. by apply save_Ok in Hs as (_ & Hs & _).
    + rewrite sweep_count_zero in Hsweep by (rewrite Hsweep; simpl; lia).
      injection Hsweep as <- <-. intros [= <- _]. by destruct w.
Qed.

(** The loop of [initialize] over the parsed records. *)
Abbreviation loadAll := (foldl (fun c record => <[fileId record := record]> c)).

Lemma loadAll_lookup (records : Datatypes.list ImageMetadata)
    (c : gmap string ImageMetadata) (k : string) :
  loadAll c records !! k
    = match last (filter (fun r => fileId r = k) records) with
      | Some r => Some r
      | None => c !! k
      end.
Proof.
  revert c. induction records as [| r records IH] using rev_ind; intros c; [done |].
  rewrite foldl_app, filter_app, last_app. simpl.
  destruct (decide (fileId r = k)) as [<- | Hne].
  - rewrite filter_cons_True, filter_nil by done. simpl. by rewrite lookup_insert_eq.
  - rewrite filter_cons_False, filter_nil by done. simpl.
    rewrite lookup_insert_ne by done. apply IH.
Qed.

Lemma loadAll_keysAgree (records : Datatypes.list ImageMetadata)
    (c : gmap string ImageMetadata) :
  keysAgree c -> keysAgree (loadAll c records).
Proof.
  intros Hc k m. rewrite loadAll_lookup.
  destruct (last _) as [r |] eqn:Hl; [| apply Hc].
  intros [= <-]. apply last_Some_elem_of in Hl.
  by apply list_elem_of_filter in Hl as [? _].
Qed.

(** X15. Loading a snapshot that parses: the store is constructed
    without error and without writing; looking up an identifier gives the
    last record of the array that carries it, and nothing when there is
    none; every key is the [fileId] of its record. *)
Theorem initialize_loads (now : Z) (d : node) (data : Datatypes.list Byte.byte)
    (records : Datatypes.list ImageMetadata) :
  fs.readFile metadataPath d = inr data ->
  JSON_parse data = Some records ->
  exists c,
    create JSON_stringify JSON_parse now d = ({| disk := d; cache := c |}, Ok tt)
    /\ (forall k, c !! k = last (filter (fun r => fileId r = k) records))
    /\ keysAgree c.
Proof.
  intros Hread Hparse. exists (loadAll ∅ records).
  split; [| split].
  - unfold create, initialize, bind, getDisk, getCache, putCache. cbn [disk cache].
    by rewrite Hread, Hparse.
  - intros k. rewrite loadAll_lookup, lookup_empty. by destruct (last _).
  - apply loadAll_keysAgree. intros k m. by rewrite lookup_empty.
Qed.

Lemma loadAll_list (c : gmap string ImageMetadata) :
  keysAgree c -> loadAll ∅ (list c) = c.
Proof.
  intros Hc. apply map_eq. intros k. rewrite loadAll_lookup, lookup_empty.
  destruct (c !! k) as [m |] eqn:Hk.
  - assert (Hin : m ∈ filter (fun r => fileId r = k) (list c)).
    { apply list_elem_of_filter. split; [by apply Hc |].
      unfold list. apply list_elem_of_fmap. exists (k, m). split; [done |].
      by apply elem_of_map_to_list. }
    destruct (last _) as [r |] eqn:Hl.
    + f_equal. apply last_Some_elem_of in Hl.
      apply list_elem_of_filter in Hl as [Hr Hrin].
      unfold list in Hrin. apply list_elem_of_fmap in Hrin as ([k' r'] & -> & Hr').
      apply elem_of_map_to_list in Hr'. simpl in Hr.
      pose proof (Hc _ _ Hr') as Hk'. simpl in Hk'. simpl. congruence.
    + apply last_None in Hl. rewrite Hl in Hin. by apply elem_of_nil in Hin.
  - destruct (last _) as [r |] eqn:Hl; [| done]. exfalso.
    apply last_Some_elem_of in Hl. apply list_elem_of_filter in Hl as [Hr Hrin].
    unfold list in Hrin. apply list_elem_of_fmap in Hrin as ([k' r'] & -> & Hr').
    apply elem_of_map_to_list in Hr'. simpl in Hr.
    pose proof (Hc _ _ Hr') as Hk'. simpl in Hk'. congruence.
Qed.

(** X16. A restart gives the catalog back: when the snapshot on disk is
    the serialised cache, the keys are the [fileId]s, and [JSON.parse]
    reads that snapshot back as the array that was serialised, a store
    constructed on that disk holds the same cache and has written
    nothing. *)
Theorem restart_restores_cache (now : Z) (w : World) :
  persisted JSON_stringify w ->
  keysAgree (cache w) ->
  JSON_parse (JSON_stringify (list (cache w))) = Some (list (cache w)) ->
  create JSON_stringify JSON_parse now (disk w) = (w, Ok tt).
Proof.
  intros Hp Hk Hround.
  unfold create, initialize, bind, getDisk, getCache, putCache. cbn [disk cache].
  unfold persisted in Hp. rewrite Hp, Hround. cbn [disk cache].
  rewrite loadAll_list by done. by destruct w.
Qed.

End CatalogPersistence.

(** The snapshot of [catSavedWorld] is read back; a snapshot that holds
    the same record twice loads it once. *)
Lemma initialize_loads_witness :
  exists c,
    MetadataStore.create stringifyCount catSnapshotParse 9 (disk catSavedWorld)
      = ({| disk := disk catSavedWorld; cache := c |}, Ok tt)
    /\ c !! "a" = Some catRecord
    /\ c !! "b" = None.
Proof.
  destruct (initialize_loads stringifyCount catSnapshotParse 9 (disk catSavedWorld)
              (stringifyCount [catRecord]) [catRecord])
    as (c & Hcreate & Hlook & _); [reflexivity | reflexivity |].
  exists c. split; [exact Hcreate |]. by rewrite !Hlook.
Defined.

Lemma restart_restores_cache_witness :
  MetadataStore.create stringifyCount catSnapshotParse 9 (disk catSavedWorld)
    = (catSavedWorld, Ok tt).
Proof.
  apply restart_restores_cache.
  - reflexivity.
  - intros k m Hm.
    change (cache catSavedWorld)
      with (<["a" := catRecord]> (∅ : gmap string ImageMetadata)) in Hm.
    apply lookup_insert_Some in Hm as [[<- <-] | [_ Hm]]; [reflexivity |].
    by rewrite lookup_empty in Hm.
  - reflexivity.
Defined.

(** Storing [catRecord] in an empty catalog on [smallDisk]. *)
Lemma catalog_mutations_persist_witness :
  persisted stringifyCount
    (MetadataStore.set stringifyCount 7 "a" catRecord {| disk := smallDisk; cache := ∅ |}).1.
Proof.
  destruct (catalog_mutations_persist stringifyCount 7
              {| disk := smallDisk; cache := ∅ |}
              (MetadataStore.set stringifyCount 7 "a" catRecord
                 {| disk := smallDisk; cache := ∅ |}).1) as (Hset & _ & _).
  destruct (Hset "a" catRecord) as [_ Hp]; [vm_compute; reflexivity | exact Hp].
Defined.

(** ** The upload route *)

Section FsLaws.

Lemma writeFile_cons (name name' : string) (rest : path) (content : list Byte.byte)
    (now : Z) (entries : gmap string node) :
  fs.writeFile (name :: name' :: rest) content now (Dir entries)
    = match entries !! name with
      | None => inl ENOENT
      | Some child =>
          match fs.writeFile (name' :: rest) content now child with
          | inl e => inl e
          | inr child' => inr (Dir (<[name := child']> entries))
          end
      end.
Proof. reflexivity. Qed.

(** A file that [writeFile] has written is read back. *)
Lemma writeFile_readFile (p : path) (content : list Byte.byte) (now : Z) (d d' : node) :
  fs.writeFile p content now d = inr d' -> fs.readFile p d' = inr content.
Proof.
  revert d d'. induction p as [| name rest IH]; intros d d'.
  - intros H. destruct d; simpl in H; discriminate H.
  - destruct d as [? ? | entries]; [discriminate |].
    destruct rest as [| name' rest'].
    + simpl. destruct (entries !! name) as [[? ? | ?] |]; try discriminate;
        intros [= <-]; unfold fs.readFile; simpl; by rewrite lookup_insert_eq.
    + rewrite writeFile_cons.
      destruct (entries !! name) as [child |]; [| discriminate].
      destruct (fs.writeFile (name' :: rest') content now child) as [e | child'] eqn:Hw;
        [discriminate |].
      intros [= <-]. apply IH in Hw. unfold fs.readFile in *. cbn [fs.stat].
      by rewrite lookup_insert_eq.
Qed.

(** Writing an entry of the upload directory leaves what lies below its
    other entries as it is. *)
Lemma stat_insert_ne (name other : string) (rest : path) (n : node)
    (top : gmap string node) :
  name <> other ->
  fs.stat (other :: rest) (Dir (<[name := n]> top)) = fs.stat (other :: rest) (Dir top).
Proof. intros Hne. simpl. by rewrite lookup_insert_ne. Qed.

End FsLaws.

Section UploadMore.

Import StorageService Routes.

Variable config : AppConfig.
Variable fromBuffer : list Byte.byte -> string + option string.
Variables extname parseName : string -> string.
Variable JSON_stringify : list ImageMetadata -> list Byte.byte.

Abbreviation upload := (postUpload config fromBuffer extname parseName JSON_stringify).

Lemma uploadSingle_Ok (uuid : string) (now : Z) (part : option UploadedPart)
    (w w1 : World) (f : MulterFile) :
  uploadSingle config extname uuid now part w = (w1, Ok (Some f)) ->
  exists p d1,
    part = Some p
    /\ part_mimetype p ∈ allowedMimeTypes config
    /\ byteSize (part_content p) < maxFileSize config
    /\ fs.writeFile (getRawPath (uuid +:+ extname (part_originalname p)))
                    (part_content p) now (disk w) = inr d1
    /\ w1 = {| disk := d1; cache := cache w |}
    /\ f = {| file_path := getRawPath (uuid +:+ extname (part_originalname p));
              file_filename := uuid +:+ extname (part_originalname p);
              file_originalname := part_originalname p;
              file_size := byteSize (part_content p);
              file_mimetype := part_mimetype p |}.
Proof.
  unfold uploadSingle. destruct part as [p |]; [| discriminate].
  case_bool_decide as Hmime; [| discriminate]. cbn [negb].
  case_bool_decide as Hsize; [discriminate |].
  unfold bind, getDisk, putDisk, await, ret, throw. cbn [disk cache].
  fold (getRawPath (uuid +:+ extname (part_originalname p))).
  destruct (fs.writeFile _ _ _ _) as [e | d1] eqn:Hw; [discriminate |].
  intros [= <- <-]. exists p, d1. repeat split; try done; lia.
Qed.

(** What multer does with a part it accepts. *)
Lemma uploadSingle_stored (uuid : string) (now : Z) (part : UploadedPart)
    (w : World) (d1 : node) :
  part_mimetype part ∈ allowedMimeTypes config ->
  byteSize (part_content part) < maxFileSize config ->
  fs.writeFile (getRawPath (uuid +:+ extname (part_originalname part)))
               (part_content part) now (disk w) = inr d1 ->
  uploadSingle config extname uuid now (Some part) w
    = ({| disk := d1; cache := cache w |},
       Ok (Some {| file_path := getRawPath (uuid +:+ extname (part_originalname part));
                   file_filename := uuid +:+ extname (part_originalname part);
                   file_originalname := part_originalname part;
                   file_size := byteSize (part_content part);
                   file_mimetype := part_mimetype part |})).
Proof.
  intros Hmime Hsize Hwrite. unfold uploadSingle.
  rewrite bool_decide_eq_true_2 by done. cbn [negb].
  rewrite bool_decide_eq_false_2 by lia.
  unfold bind, getDisk, putDisk, await, ret. cbn [disk cache].
  fold (getRawPath (uuid +:+ extname (part_originalname part))).
  by rewrite Hwrite.
Qed.

Lemma set_Ok_disk (now : Z) (fid : string) (m : ImageMetadata) (w w' : World) :
  MetadataStore.set JSON_stringify now fid m w = (w', Ok tt) ->
  exists top content,
    disk w = Dir top
    /\ disk w' = Dir (<[MetadataStore.METADATA_FILE := File content now]> top).
Proof.
  unfold MetadataStore.set, bind, getCache, putCache. intros H.
  destruct (MetadataStore.save JSON_stringify now _) as [w1 [[] | e]] eqn:Hs;
    [| discriminate].
  injection H as <-. apply save_Ok in Hs as (_ & _ & top & Hd & Hd'). eauto.
Qed.

(** X17. An upload that is answered with success has passed every check
    and is fully recorded: the declared type is allowed, the size is
    below the limit, the sniffer has resolved and the bytes pass
    [validateFileSignature]; the catalog has gained exactly the record of
    the upload, keyed by the identifier of the response; the stored file
    reads back as the uploaded bytes; and the snapshot on disk is the
    serialised catalog. *)
Theorem upload_success (uuid : string) (now : Z) (part : option UploadedPart)
    (w w' : World) (response : UploadResponse) :
  upload uuid now part w = (w', Ok response) ->
  exists p fileTypeResult,
    part = Some p
    /\ part_mimetype p ∈ allowedMimeTypes config
    /\ byteSize (part_content p) < maxFileSize config
    /\ fromBuffer (part_content p) = inr fileTypeResult
    /\ Validation.validateFileSignature (fun _ => fileTypeResult) config (part_content p)
       = true
    /\ response
       = {| up_fileId := parseName (uuid +:+ extname (part_originalname p));
            up_originalName := part_originalname p;
            up_size := byteSize (part_content p);
            up_previewUrl := "/api/images/raw/" +:+ (uuid +:+ extname (part_originalname p)) |}
    /\ cache w'
       = <[up_fileId response :=
             {| fileId := up_fileId response;
                originalName := part_originalname p;
                size := byteSize (part_content p);
                mimeType := part_mimetype p;
                rawPath := getRawPath (uuid +:+ extname (part_originalname p));
                processedPath := None;
                timestamp := now;
                operations := None |}]> (cache w)
    /\ fs.readFile (getRawPath (uuid +:+ extname (part_originalname p))) (disk w')
       = inr (part_content p)
    /\ persisted JSON_stringify w'.
Proof.
  unfold postUpload. intros H.
  apply bind_Ok in H as (file & w1 & Hsingle & Hhandler).
  destruct file as [f |]; [| discriminate].
  apply uploadSingle_Ok in Hsingle as (p & d1 & -> & Hmime & Hsize & Hwrite & -> & ->).
  pose proof (writeFile_readFile _ _ _ _ _ Hwrite) as Hread.
  unfold uploadHandler, bind at 1, getDisk in Hhandler. cbn [disk cache file_path] in Hhandler.
  destruct (checkDiskQuota config d1); [| discriminate]. cbn [negb] in Hhandler.
  apply bind_Ok in Hhandler as (buffer & w2 & Hbuf & Hhandler).
  rewrite Hread in Hbuf. injection Hbuf as <- <-.
  apply bind_Ok in Hhandler as (isValid & w3 & Hvalid & Hhandler).
  unfold validateFileSignature in Hvalid.
  destruct (fromBuffer (part_content p)) as [message | fileTypeResult] eqn:Hsniff;
    [discriminate |].
  injection Hvalid as <- <-.
  destruct (Validation.validateFileSignature _ config (part_content p)) eqn:Hvalid;
    [| discriminate].
  exists p, fileTypeResult. do 5 (split; [done |]).
  cbn [negb file_filename file_originalname file_size file_mimetype] in Hhandler.
  apply bind_Ok in Hhandler as ([] & w3 & Hset & Hret).
  injection Hret as <- <-.
  split; [reflexivity |]. cbn [up_fileId].
  pose proof (set_Ok_disk _ _ _ _ _ Hset) as (top & content & Hd & Hd').
  apply set_Ok_full in Hset as [Hcache Hpersisted]. cbn [disk cache] in *.
  split; [exact Hcache |]. split; [| exact Hpersisted].
  rewrite Hd'. subst d1. unfold fs.readFile in *. unfold getRawPath, rawDir, uploadDir in *.
  cbn [app] in *. by rewrite stat_insert_ne.
Qed.

(** X18. An upload that multer accepts and stores while the quota leaves
    room for it, and whose bytes do not pass the signature check. When
    the sniffer resolves and [validateFileSignature] answers false, the
    upload is answered with the error 400 and the world is as it was: the
    stored file is removed again and no record is made. When the sniffer
    rejects, the error is passed on as it is, which gives status 500,
    and nothing removes the stored file: it stays in [raw/] without a
    record. *)
Theorem upload_invalid_signature (uuid : string) (now : Z) (part : UploadedPart)
    (w : World) (rawEntries : gmap string node) :
  part_mimetype part ∈ allowedMimeTypes config ->
  byteSize (part_content part) < maxFileSize config ->
  fs.stat rawDir (disk w) = inr (Dir rawEntries) ->
  rawEntries !! (uuid +:+ extname (part_originalname part)) = None ->
  calculateDirectorySize (disk w) + byteSize (part_content part) < maxDiskQuota config ->
  (forall fileTypeResult,
     fromBuffer (part_content part) = inr fileTypeResult ->
     Validation.validateFileSignature (fun _ => fileTypeResult) config (part_content part)
       = false ->
     upload uuid now (Some part) w
       = (w, Throw (AppError "Invalid file format or corrupted file" 400)))
  /\ (forall message,
     fromBuffer (part_content part) = inl message ->
     exists d1,
       upload uuid now (Some part) w
         = ({| disk := d1; cache := cache w |}, Throw (OtherError message))
       /\ statusOf (OtherError message) = 500
       /\ fs.readFile (getRawPath (uuid +:+ extname (part_originalname part))) d1
          = inr (part_content part)).
Proof.
  intros Hmime Hsize Hstat Hfresh Hquota.
  destruct (stat_rawDir _ _ Hstat) as (top & Hdisk & Hraw).
  destruct w as [d c]. simpl in Hdisk, Hquota. subst d.
  pose proof (writeFile_raw top rawEntries (uuid +:+ extname (part_originalname part))
                (part_content part) now Hraw Hfresh) as Hwrite.
  pose proof (writeFile_readFile _ _ _ _ _ Hwrite) as Hread.
  assert (Hspace : checkDiskQuota config
                     (Dir (<["raw" := Dir (<[uuid +:+ extname (part_originalname part)
                                              := File (part_content part) now]> rawEntries)]>
                             top)) = true).
  { unfold checkDiskQuota.
    rewrite (calculateDirectorySize_written top rawEntries) by done.
    apply bool_decide_eq_true_2. lia. }
  assert (Hstart : forall k : option MulterFile -> M UploadResponse,
             bind (uploadSingle config extname uuid now (Some part)) k
                  {| disk := Dir top; cache := c |}
             = k (Some {| file_path := getRawPath (uuid +:+ extname (part_originalname part));
                          file_filename := uuid +:+ extname (part_originalname part);
                          file_originalname := part_originalname part;
                          file_size := byteSize (part_content part);
                          file_mimetype := part_mimetype part |})
                 {| disk := Dir (<["raw" := Dir (<[uuid +:+ extname (part_originalname part)
                                                  := File (part_content part) now]>
                                                   rawEntries)]> top);
                    cache := c |}).
  { intros k. unfold bind.
    by rewrite (uploadSingle_stored uuid now part {| disk := Dir top; cache := c |} _
                  Hmime Hsize Hwrite). }
  split.
  - intros fileTypeResult Hsniff Hinvalid.
    unfold postUpload. rewrite Hstart.
    unfold uploadHandler, bind, getDisk, storage_deleteFile, putDisk, getDisk, await, ret, throw.
    cbn [disk cache file_path]. rewrite Hspace. cbn [negb].
    unfold getRawPath in *. rewrite Hread. cbn [disk cache].
    unfold validateFileSignature, ret. rewrite Hsniff, Hinvalid. cbn [negb disk cache].
    unfold bind. cbn [disk cache].
    by rewrite (deleteFile_written top rawEntries).
  - intros message Hsniff. eexists. split; [| split; [reflexivity | exact Hread]].
    unfold postUpload. rewrite Hstart.
    unfold uploadHandler, bind, getDisk, await, ret, throw.
    cbn [disk cache file_path]. rewrite Hspace. cbn [negb].
    unfold getRawPath in *. rewrite Hread. cbn [disk cache].
    unfold validateFileSignature, throw. by rewrite Hsniff.
Qed.

(** X19. When the snapshot cannot be written, an upload that has passed
    every check is answered with an error although it has taken effect:
    the record is in the catalog in memory and the file is on disk. *)
Theorem upload_snapshot_failure (uuid : string) (now : Z) (part : UploadedPart)
    (w : World) (d1 : node) (e : Errno) (record : ImageMetadata)
    (fileTypeResult : option string) :
  part_mimetype part ∈ allowedMimeTypes config ->
  byteSize (part_content part) < maxFileSize config ->
  fs.writeFile (getRawPath (uuid +:+ extname (part_originalname part)))
               (part_content part) now (disk w) = inr d1 ->
  checkDiskQuota config d1 = true ->
  fromBuffer (part_content part) = inr fileTypeResult ->
  Validation.validateFileSignature (fun _ => fileTypeResult) config (part_content part)
    = true ->
  record = {| fileId := parseName (uuid +:+ extname (part_originalname part));
              originalName := part_originalname part;
              size := byteSize (part_content part);
              mimeType := part_mimetype part;
              rawPath := getRawPath (uuid +:+ extname (part_originalname part));
              processedPath := None;
              timestamp := now;
              operations := None |} ->
  fs.writeFile MetadataStore.metadataPath
     (JSON_stringify (MetadataStore.list (<[fileId record := record]> (cache w)))) now d1
    = inl e ->
  upload uuid now (Some part) w
    = ({| disk := d1; cache := <[fileId record := record]> (cache w) |},
       Throw (OtherError (errnoName e))).
Proof.
  intros Hmime Hsize Hwrite Hquota Hsniff Hvalid -> Hfail. cbn [fileId] in *.
  unfold postUpload, bind at 1.
  rewrite (uploadSingle_stored uuid now part w d1 Hmime Hsize Hwrite).
  unfold uploadHandler, bind, getDisk, await, ret, throw. cbn [disk cache file_path].
  rewrite Hquota. cbn [negb].
  rewrite (writeFile_readFile _ _ _ _ _ Hwrite). cbn [disk cache].
  unfold validateFileSignature, ret. rewrite Hsniff, Hvalid.
  cbn [negb file_filename file_originalname file_size file_mimetype].
  unfold MetadataStore.set, MetadataStore.save, bind, getCache, putCache, getDisk, await, throw.
  cbn [disk cache]. by rewrite Hfail.
Qed.

End UploadMore.

(** A PNG header uploaded to [smallDisk] under the default configuration. *)
Lemma upload_success_witness :
  exists record,
    cache (Routes.postUpload defaultConfig (resolving pngSniffer) (fun _ => ".png")
             (fun _ => "u1") stringifyCount "u1" 1000 (Some pngPart)
             {| disk := smallDisk; cache := ∅ |}).1 !! "u1" = Some record
    /\ timestamp record = 1000
    /\ fs.readFile ["raw"; "u1.png"]
         (disk (Routes.postUpload defaultConfig (resolving pngSniffer) (fun _ => ".png")
                  (fun _ => "u1") stringifyCount "u1" 1000 (Some pngPart)
                  {| disk := smallDisk; cache := ∅ |}).1) = inr pngHeader.
Proof.
  destruct (upload_success defaultConfig (resolving pngSniffer) (fun _ => ".png")
              (fun _ => "u1")
              stringifyCount "u1" 1000 (Some pngPart) {| disk := smallDisk; cache := ∅ |}
              (Routes.postUpload defaultConfig (resolving pngSniffer) (fun _ => ".png")
                 (fun _ => "u1") stringifyCount "u1" 1000 (Some pngPart)
                 {| disk := smallDisk; cache := ∅ |}).1
              {| Routes.up_fileId := "u1"; Routes.up_originalName := "b.png";
                 Routes.up_size := 10; Routes.up_previewUrl := "/api/images/raw/u1.png" |})
    as (p & fileTypeResult & Hp & _ & _ & _ & _ & _ & Hcache & Hread & _).
  - vm_compute. reflexivity.
  - injection Hp as <-. eexists. rewrite Hcache. split; [apply lookup_insert_eq |].
    split; [reflexivity | exact Hread].
Defined.

(** The same upload when the sniffer recognises nothing, and when it
    rejects. *)
Lemma upload_invalid_signature_witness :
  Routes.postUpload defaultConfig (resolving (fun _ => None)) (fun _ => ".png")
      (fun _ => "u1") stringifyCount "u1" 1000 (Some pngPart)
      {| disk := smallDisk; cache := ∅ |}
    = ({| disk := smallDisk; cache := ∅ |},
       Throw (AppError "Invalid file format or corrupted file" 400))
  /\ exists d1,
       Routes.postUpload defaultConfig (fun _ => inl "End-Of-Stream") (fun _ => ".png")
           (fun _ => "u1") stringifyCount "u1" 1000 (Some pngPart)
           {| disk := smallDisk; cache := ∅ |}
         = ({| disk := d1; cache := ∅ |}, Throw (OtherError "End-Of-Stream"))
       /\ fs.readFile ["raw"; "u1.png"] d1 = inr pngHeader.
Proof.
  split.
  - apply (proj1 (upload_invalid_signature defaultConfig (resolving (fun _ => None))
                    (fun _ => ".png") (fun _ => "u1") stringifyCount "u1" 1000 pngPart
                    {| disk := smallDisk; cache := ∅ |}
                    (<["a.jpg" := File [Byte.xff; Byte.xd8; Byte.xff] 0]> ∅)
                    ltac:(apply list_elem_of_In; simpl; tauto)
                    ltac:(vm_compute; reflexivity)
                    ltac:(reflexivity) ltac:(reflexivity)
                    ltac:(vm_compute; reflexivity)) None);
      reflexivity.
  - destruct (proj2 (upload_invalid_signature defaultConfig (fun _ => inl "End-Of-Stream")
                       (fun _ => ".png") (fun _ => "u1") stringifyCount "u1" 1000 pngPart
                       {| disk := smallDisk; cache := ∅ |}
                       (<["a.jpg" := File [Byte.xff; Byte.xd8; Byte.xff] 0]> ∅)
                       ltac:(apply list_elem_of_In; simpl; tauto)
                       ltac:(vm_compute; reflexivity)
                       ltac:(reflexivity) ltac:(reflexivity)
                       ltac:(vm_compute; reflexivity)) "End-Of-Stream" eq_refl)
      as (d1 & Hrun & _ & Hread).
    exists d1. split; [exact Hrun | exact Hread].
Defined.

(** The same upload when a directory stands in the place of the
    snapshot. *)
Lemma upload_snapshot_failure_witness :
  Routes.postUpload defaultConfig (resolving pngSniffer) (fun _ => ".png") (fun _ => "u1")
      stringifyCount "u1" 1000 (Some pngPart)
      {| disk := blockedSnapshotDisk; cache := ∅ |}
    = ({| disk := Dir (<["metadata.json" := Dir ∅]>
                      (<["raw" := Dir (<["u1.png" := File pngHeader 1000]> ∅)]> ∅));
          cache := <["u1" := {| fileId := "u1"; originalName := "b.png"; size := 10;
                                mimeType := "image/png"; rawPath := ["raw"; "u1.png"];
                                processedPath := None; timestamp := 1000;
                                operations := None |}]> ∅ |},
       Throw (OtherError "EISDIR")).
Proof.
  apply (upload_snapshot_failure defaultConfig (resolving pngSniffer) (fun _ => ".png")
           (fun _ => "u1") stringifyCount "u1" 1000 pngPart
           {| disk := blockedSnapshotDisk; cache := ∅ |}
           (Dir (<["metadata.json" := Dir ∅]>
                (<["raw" := Dir (<["u1.png" := File pngHeader 1000]> ∅)]> ∅)))
           EISDIR
           {| fileId := "u1"; originalName := "b.png"; size := 10;
              mimeType := "image/png"; rawPath := ["raw"; "u1.png"];
              processedPath := None; timestamp := 1000; operations := None |}
           (Some "image/png")).
  - apply list_elem_of_In. simpl. tauto.
  - vm_compute. reflexivity.
  - vm_compute. reflexivity.
  - vm_compute. reflexivity.
  - reflexivity.
  - vm_compute. reflexivity.
  - reflexivity.
  - vm_compute. reflexivity.
Defined.

(** ** The process route *)

Section ProcessMore.

Import StorageService Routes.

Variable JSON_stringify : list ImageMetadata -> list Byte.byte.
Variable render : ImageProcessor.Sharp -> list Byte.byte
                  -> (string * option (list Byte.byte)) + (list Byte.byte * string).

Abbreviation process := (processHandler JSON_stringify render).

(** X20. A processing request for an identifier the catalog does not
    know, or whose raw file is no longer on disk, is answered with the
    error 404 and changes nothing. *)
Theorem process_not_found (uuid : string) (now : Z) (body : ProcessRequest)
    (w : World) (fid : string) (ops : list ImageOperation) :
  req_fileId body = Some fid ->
  fid <> "" ->
  req_operations body = Some ops ->
  cache w !! fid = None
  \/ (exists meta e, cache w !! fid = Some meta
                     /\ fs.access (rawPath meta) (disk w) = inl e) ->
  exists message,
    process uuid now body w = (w, Throw (AppError message 404)).
Proof.
  intros Hfid Hne Hops Hcase. unfold processHandler. rewrite Hfid, Hops.
  rewrite bool_decide_eq_false_2 by done.
  unfold bind at 1, MetadataStore.get.
  destruct Hcase as [-> | (meta & e & -> & Haccess)].
  - by eexists.
  - unfold bind at 1, try_catch, bind, getDisk, await, throw. rewrite Haccess.
    by eexists.
Qed.

Lemma processImage_Ok (now : Z) (inputPath outputPath : path)
    (ops : list ImageOperation) (w w' : World) (result : Z * string) :
  processImage render now inputPath outputPath ops w = (w', Ok result) ->
  exists input output fmt d',
    fs.readFile inputPath (disk w) = inr input
    /\ render (ImageProcessor.pipelineOf ops) input = inr (output, fmt)
    /\ fs.writeFile outputPath output now (disk w) = inr d'
    /\ w' = {| disk := d'; cache := cache w |}
    /\ result = (byteSize output, fmt).
Proof.
  unfold processImage, try_catch, bind, getDisk, putDisk, await, ret, throw.
  destruct (fs.readFile _ _) as [e | input] eqn:Hr; [discriminate |].
  destruct (render _ _) as [[message partial] | [output fmt]] eqn:Hrender; [discriminate |].
  destruct (fs.writeFile _ _ _ _) as [e | d'] eqn:Hw; [discriminate |].
  intros [= <- <-]. by exists input, output, fmt, d'.
Qed.

Lemma processImage_Throw (now : Z) (inputPath outputPath : path)
    (ops : list ImageOperation) (w w' : World) (e : Error) :
  processImage render now inputPath outputPath ops w = (w', Throw e) ->
  cache w' = cache w
  /\ (exists message, e = OtherError ("Image processing failed: " +:+ message))
  /\ (disk w' = disk w
      \/ exists input message bytes,
           fs.readFile inputPath (disk w) = inr input
           /\ render (ImageProcessor.pipelineOf ops) input = inl (message, Some bytes)
           /\ fs.writeFile outputPath bytes now (disk w) = inr (disk w')).
Proof.
  unfold processImage, try_catch, bind, getDisk, putDisk, await, ret, throw.
  destruct (fs.readFile _ _) as [e1 | input] eqn:Hread;
    [intros [= <- <-]; repeat split; eauto |].
  destruct (render _ _) as [[message partial] | [output fmt]] eqn:Hrender.
  - intros [= <- <-]. cbn [disk cache]. split; [done |]. split; [by eauto |].
    unfold leftBehind.
    destruct partial as [bytes |]; [| by left].
    destruct (fs.writeFile outputPath bytes now (disk w)) as [e1 | d'] eqn:Hwrite;
      [by left |].
    right. by exists input, message, bytes.
  - destruct (fs.writeFile _ _ _ _) as [e1 | d'];
      [intros [= <- <-]; repeat split; eauto | discriminate].
Qed.

(** X21. When [processImage] rejects, whether the input cannot be read,
    the image library fails or the output cannot be written, the catalog
    is as before and the error is a plain [Error] that carries the
    message of the cause behind a fixed prefix. The disk is as before
    too, unless the library had put bytes at the output path when it
    failed: these stay, since nothing removes them. The process route
    passes the error on as it is, so the request is answered with 500
    whatever the cause, and the record of the upload keeps its old
    processed location and operations. *)
Theorem processImage_failure (now : Z) (inputPath outputPath : path)
    (ops : list ImageOperation) (w w' : World) (e : Error) :
  processImage render now inputPath outputPath ops w = (w', Throw e) ->
  cache w' = cache w
  /\ (exists message, e = OtherError ("Image processing failed: " +:+ message))
  /\ statusOf e = 500
  /\ (disk w' = disk w
      \/ exists input message bytes,
           fs.readFile inputPath (disk w) = inr input
           /\ render (ImageProcessor.pipelineOf ops) input = inl (message, Some bytes)
           /\ fs.writeFile outputPath bytes now (disk w) = inr (disk w'))
  /\ (forall uuid body fid meta,
        req_fileId body = Some fid ->
        fid <> "" ->
        req_operations body = Some ops ->
        cache w !! fid = Some meta ->
        fs.access (rawPath meta) (disk w) = inr tt ->
        inputPath = rawPath meta ->
        outputPath
          = getProcessedPath
              (ImageProcessor.generateFilename uuid
                 (ImageProcessor.getExtensionFromFormat (foldl routeFormatStep "jpeg" ops))) ->
        process uuid now body w = (w', Throw e)
        /\ processStatus (process uuid now body w).2 = 500
        /\ cache w' !! fid = Some meta).
Proof.
  intros Hfail.
  destruct (processImage_Throw _ _ _ _ _ _ _ Hfail) as (Hcache & [message ->] & Hdisk).
  split; [done |]. split; [by eauto |]. split; [done |]. split; [done |].
  intros uuid body fid meta Hfid Hne Hops Hmeta Haccess -> ->.
  assert (Hrun : process uuid now body w
                 = (w', Throw (OtherError ("Image processing failed: " +:+ message)))).
  { unfold processHandler. rewrite Hfid, Hops.
    rewrite bool_decide_eq_false_2 by done.
    unfold bind at 1, MetadataStore.get. rewrite Hmeta.
    unfold bind at 1, try_catch, bind at 1, getDisk, await, ret. rewrite Haccess.
    unfold bind at 1. by rewrite Hfail. }
  split; [exact Hrun |]. split; [by rewrite Hrun |]. by rewrite Hcache.
Qed.

Lemma writeFile_shape (name : string) (rest : path) (content : list Byte.byte)
    (now : Z) (d d' : node) :
  fs.writeFile (name :: rest) content now d = inr d' ->
  exists top n, d = Dir top /\ d' = Dir (<[name := n]> top).
Proof.
  destruct d as [? ? | top]; [discriminate |].
  destruct rest as [| name' rest'].
  - simpl. destruct (top !! name) as [[? ? | ?] |]; try discriminate;
      intros [= <-]; eauto.
  - rewrite writeFile_cons. destruct (top !! name) as [child |]; [| discriminate].
    destruct (fs.writeFile _ _ _ child) as [e | child']; [discriminate |].
    intros [= <-]. eauto.
Qed.

(** X22. A processing request that is answered with success has run the
    image library on the bytes of the raw file with the pipeline of the
    request; the output is stored under [processed/] as [<uuid>.] and the
    extension that the loop of the route has picked, and reads back as
    the bytes the library returned; the response names that file and its
    true size, and the record of the upload points at it; a raw file
    under [raw/] still reads as before; and the snapshot on disk is the
    serialised catalog. *)
Theorem process_success_files (uuid : string) (now : Z) (body : ProcessRequest)
    (w w' : World) (response : ProcessResponse) :
  process uuid now body w = (w', Ok response) ->
  exists fid ops meta input output fmt outputFilename meta',
    req_fileId body = Some fid
    /\ req_operations body = Some ops
    /\ cache w !! fid = Some meta
    /\ fs.readFile (rawPath meta) (disk w) = inr input
    /\ render (ImageProcessor.pipelineOf ops) input = inr (output, fmt)
    /\ outputFilename
       = ImageProcessor.generateFilename uuid
           (ImageProcessor.getExtensionFromFormat (foldl routeFormatStep "jpeg" ops))
    /\ response
       = {| pr_fileId := fid;
            pr_downloadUrl := "/api/images/processed/" +:+ outputFilename;
            pr_processedSize := byteSize output |}
    /\ fs.readFile (getProcessedPath outputFilename) (disk w') = inr output
    /\ cache w' !! fid = Some meta'
    /\ processedPath meta' = Some (getProcessedPath outputFilename)
    /\ (forall name, rawPath meta = getRawPath name ->
          fs.readFile (rawPath meta) (disk w') = inr input)
    /\ persisted JSON_stringify w'.
Proof.
  unfold processHandler. intros H.
  destruct (req_fileId body) as [fid |]; [| discriminate].
  destruct (req_operations body) as [ops |]; [| discriminate].
  case_bool_decide as Hempty; [discriminate |].
  apply bind_Ok in H as (found & w0 & Hget & H).
  unfold MetadataStore.get in Hget. injection Hget as <- <-.
  destruct (cache w !! fid) as [meta |] eqn:Hmeta; [| discriminate].
  apply bind_Ok in H as ([] & w1 & Haccess & H).
  assert (w1 = w) as ->.
  { unfold try_catch, bind, getDisk in Haccess.
    destruct (await _ w) as [w2 [[] | e]] eqn:Ha.
    - apply await_world in Ha. congruence.
    - discriminate. }
  apply bind_Ok in H as (result & w2 & Hproc & H).
  apply bind_Ok in H as ([] & w3 & Hset & H).
  injection H as <- <-.
  set (outputFilename :=
         ImageProcessor.generateFilename uuid
           (ImageProcessor.getExtensionFromFormat (foldl routeFormatStep "jpeg" ops))) in *.
  apply processImage_Ok in Hproc
    as (input & output & fmt & d' & Hread & Hrender & Hwrite & -> & ->).
  pose proof (set_Ok_disk _ _ _ _ _ _ Hset) as (top & content & Hd & Hd').
  apply set_Ok_full in Hset as [Hcache Hpersisted]. cbn [disk cache] in *.
  eexists fid, ops, meta, input, output, fmt, outputFilename, _.
  do 7 (split; [done |]). split; [| split; [| split; [| split; [| done]]]].
  - rewrite Hd'. pose proof (writeFile_readFile _ _ _ _ _ Hwrite) as Hback.
    rewrite Hd in Hback. unfold fs.readFile in *.
    unfold getProcessedPath, processedDir, uploadDir in *. cbn [app] in *.
    by rewrite stat_insert_ne.
  - rewrite Hcache. apply lookup_insert_eq.
  - reflexivity.
  - intros name Hraw. rewrite Hraw in *. rewrite Hd'.
    unfold getProcessedPath, processedDir, getRawPath, rawDir, uploadDir in *.
    cbn [app] in *.
    apply writeFile_shape in Hwrite as (top0 & n & Hw0 & Hw1).
    rewrite Hd in Hw1. injection Hw1 as ->. rewrite Hw0 in Hread.
    unfold fs.readFile in *. by rewrite !stat_insert_ne.
Qed.

End ProcessMore.

(** The request of tests/integration for an identifier nobody has. *)
Lemma process_not_found_witness :
  exists message,
    Routes.processHandler stringifyCount echoRender "u2" 5000
        {| Routes.req_fileId := Some "non-existent-id";
           Routes.req_operations := Some [Resize_ 100 100] |} catWorld
      = (catWorld, Throw (AppError message 404)).
Proof.
  apply (process_not_found stringifyCount echoRender "u2" 5000 _ catWorld "non-existent-id" [Resize_ 100 100]);
    [reflexivity | discriminate | reflexivity | left; reflexivity].
Defined.

(** An image library that fails after it has put one byte at the output
    path: the catalog is untouched, the byte stays on disk, and the
    request is answered with 500. *)
Lemma processImage_failure_witness :
  cache (Routes.processImage failingRender 5000
           ["raw"; "a.jpg"] ["processed"; "u2.jpg"] [] catWorld).1 = cache catWorld
  /\ fs.readFile ["processed"; "u2.jpg"]
       (disk (Routes.processImage failingRender 5000
                ["raw"; "a.jpg"] ["processed"; "u2.jpg"] [] catWorld).1)
     = inr [Byte.xff]
  /\ Routes.processStatus
       (Routes.processHandler stringifyCount failingRender "u2" 5000
          {| Routes.req_fileId := Some "a"; Routes.req_operations := Some [] |}
          catWorld).2 = 500.
Proof.
  destruct (processImage_failure stringifyCount failingRender 5000
              ["raw"; "a.jpg"] ["processed"; "u2.jpg"] [] catWorld
              (Routes.processImage failingRender 5000
                 ["raw"; "a.jpg"] ["processed"; "u2.jpg"] [] catWorld).1
              (OtherError "Image processing failed: unsupported image format"))
    as (Hcache & _ & _ & _ & Hroute).
  - vm_compute. reflexivity.
  - split; [exact Hcache |]. split; [vm_compute; reflexivity |].
    assert (Hne : "a" <> "") by discriminate.
    exact (proj1 (proj2 (Hroute "u2" {| Routes.req_fileId := Some "a";
                                        Routes.req_operations := Some [] |}
                           "a" catRecord eq_refl Hne eq_refl eq_refl eq_refl
                           eq_refl eq_refl))).
Defined.

(** The request of [catRequest]: the output is stored as [u2.png]. *)
Lemma process_success_files_witness :
  fs.readFile ["processed"; "u2.png"] (disk catProcessed)
    = inr [Byte.xff; Byte.xd8; Byte.xff]
  /\ fs.readFile ["raw"; "a.jpg"] (disk catProcessed)
    = inr [Byte.xff; Byte.xd8; Byte.xff].
Proof.
  destruct (process_success_files stringifyCount echoRender "u2" 5000
              catRequest catWorld catProcessed
              {| Routes.pr_fileId := "a";
                 Routes.pr_downloadUrl := "/api/images/processed/u2.png";
                 Routes.pr_processedSize := 3 |})
    as (fid & ops & meta & input & output & fmt & outputFilename & meta' & Hfid & Hops
        & Hmeta & Hread & Hrender & Hname & _ & Hout & _ & _ & Hraw & _).
  - vm_compute. reflexivity.
  - injection Hfid as <-. injection Hops as <-.
    assert (Hc : cache catWorld !! "a" = Some catRecord) by reflexivity.
    rewrite Hc in Hmeta. injection Hmeta as <-.
    assert (Hi : fs.readFile (rawPath catRecord) (disk catWorld)
                 = inr [Byte.xff; Byte.xd8; Byte.xff]) by reflexivity.
    rewrite Hi in Hread. injection Hread as <-.
    assert (Ho : echoRender
                   (ImageProcessor.pipelineOf
                      [Resize_ 100 100; Convert_ webp; Quality_ 50; Convert_ png])
                   [Byte.xff; Byte.xd8; Byte.xff]
                 = inr ([Byte.xff; Byte.xd8; Byte.xff], "png")) by reflexivity.
    rewrite Ho in Hrender. injection Hrender as <- <-.
    assert (Hn : outputFilename = "u2.png") by (rewrite Hname; reflexivity).
    rewrite Hn in Hout.
    split; [exact Hout |]. exact (Hraw "a.jpg" eq_refl).
Defined.

(** ** The delete route *)

Section DeleteMore.

Import StorageService Routes.

Variable JSON_stringify : list ImageMetadata -> list Byte.byte.

Abbreviation remove := (deleteHandler JSON_stringify).

(** Deleting an identifier the catalog does not know is answered with
    the error 404 and touches neither the catalog nor the disk. *)
Lemma delete_not_found (now : Z) (fid : string) (w : World) :
  cache w !! fid = None ->
  remove now fid w = (w, Throw (AppError "File not found" 404)).
Proof.
  intros Hnone. unfold deleteHandler, bind, MetadataStore.get. by rewrite Hnone.
Qed.

Lemma deleteHandler_Ok (now : Z) (fid : string) (w w' : World) :
  remove now fid w = (w', Ok tt) ->
  exists meta d,
    cache w !! fid = Some meta
    /\ MetadataStore.delete JSON_stringify now fid {| disk := d; cache := cache w |}
       = (w', Ok tt)
    /\ d = (let d1 := if bool_decide (rawPath meta = []) then disk w
                      else deleteFile (rawPath meta) (disk w) in
            match processedPath meta with
            | Some p => if bool_decide (p = []) then d1 else deleteFile p d1
            | None => d1
            end).
Proof.
  unfold deleteHandler. intros H.
  apply bind_Ok in H as (found & w0 & Hget & H).
  unfold MetadataStore.get in Hget. injection Hget as <- <-.
  destruct (cache w !! fid) as [meta |] eqn:Hmeta; [| discriminate].
  apply bind_Ok in H as ([] & w1 & Hraw & H).
  apply bind_Ok in H as ([] & w2 & Hproc & H).
  exists meta, (disk w2). split; [done |].
  assert (Hw1 : w1 = {| disk := if bool_decide (rawPath meta = []) then disk w
                               else deleteFile (rawPath meta) (disk w);
                        cache := cache w |}).
  { unfold ret, storage_deleteFile, bind, getDisk, putDisk in Hraw.
    case_bool_decide.
    - injection Hraw as <-. by destruct w.
    - congruence. }
  assert (Hw2 : w2 = {| disk := match processedPath meta with
                               | Some p => if bool_decide (p = []) then disk w1
                                           else deleteFile p (disk w1)
                               | None => disk w1
                               end;
                        cache := cache w |}).
  { rewrite Hw1 in Hproc |- *. cbn [disk cache].
    unfold ret, storage_deleteFile, bind, getDisk, putDisk in Hproc.
    destruct (processedPath meta) as [p |].
    - destruct (bool_decide (p = [])); cbn [disk cache] in Hproc; congruence.
    - cbn [disk cache] in Hproc. congruence. }
  rewrite Hw1 in Hw2. cbn [disk] in Hw2.
  assert (Hc2 : cache w2 = cache w) by (by rewrite Hw2).
  split.
  - destruct w2 as [d2 c2]. cbn [disk cache] in *. by subst c2.
  - rewrite Hw2 at 1. reflexivity.
Qed.

(** X23. A delete that is answered with success has removed exactly the
    record of that identifier and flushed the snapshot; the identifier no
    longer resolves, so repeating the request is answered with 404 and
    changes nothing. *)
Theorem delete_success (now : Z) (fid : string) (w w' : World) :
  remove now fid w = (w', Ok tt) ->
  cache w' = delete fid (cache w)
  /\ persisted JSON_stringify w'
  /\ forall now', remove now' fid w' = (w', Throw (AppError "File not found" 404)).
Proof.
  intros H. apply deleteHandler_Ok in H as (meta & d & _ & Hdel & _).
  apply delete_Ok_full in Hdel as [Hcache Hp]. cbn [cache] in Hcache.
  split; [done |]. split; [done |]. intros now'.
  apply delete_not_found. rewrite Hcache. apply lookup_delete_eq.
Qed.

(** X24. After a successful delete of a record whose files are where the
    upload and process routes put them, neither the raw nor the processed
    file exists any more. *)
Theorem delete_removes_artifacts (now : Z) (fid : string) (w w' : World)
    (meta : ImageMetadata) (rawName processedName : string)
    (top rawEntries processedEntries : gmap string node)
    (rawContent processedContent : list Byte.byte) (rawTime processedTime : Z) :
  cache w !! fid = Some meta ->
  rawPath meta = getRawPath rawName ->
  processedPath meta = Some (getProcessedPath processedName) ->
  disk w = Dir top ->
  top !! "raw" = Some (Dir rawEntries) ->
  rawEntries !! rawName = Some (File rawContent rawTime) ->
  top !! "processed" = Some (Dir processedEntries) ->
  processedEntries !! processedName = Some (File processedContent processedTime) ->
  remove now fid w = (w', Ok tt) ->
  fs.access (getRawPath rawName) (disk w') = inl ENOENT
  /\ fs.access (getProcessedPath processedName) (disk w') = inl ENOENT
  /\ cache w' !! fid = None.
Proof.
  intros Hmeta Hraw Hproc Hdisk Htr Hre Htp Hpe H.
  apply deleteHandler_Ok in H as (meta' & d & Hmeta' & Hdel & Hd).
  pose proof (delete_Ok_full _ _ _ _ _ Hdel) as [Hcache _]. cbn [cache] in Hcache.
  rewrite Hmeta in Hmeta'. injection Hmeta' as <-.
  rewrite Hraw, Hproc, Hdisk in Hd.
  unfold getRawPath, getProcessedPath, rawDir, processedDir, uploadDir in *.
  cbn [app] in *.
  rewrite !bool_decide_eq_false_2 in Hd by discriminate.
  assert (Hd1 : deleteFile ["raw"; rawName] (Dir top)
                = Dir (<["raw" := Dir (delete rawName rawEntries)]> top)).
  { unfold deleteFile. simpl. rewrite Htr. simpl. by rewrite Hre. }
  rewrite Hd1 in Hd.
  assert (Hd2 : deleteFile ["processed"; processedName]
                  (Dir (<["raw" := Dir (delete rawName rawEntries)]> top))
                = Dir (<["processed" := Dir (delete processedName processedEntries)]>
                      (<["raw" := Dir (delete rawName rawEntries)]> top))).
  { unfold deleteFile. simpl. rewrite lookup_insert_ne by done. rewrite Htp. simpl.
    by rewrite Hpe. }
  cbv zeta in Hd. rewrite Hd2 in Hd.
  unfold MetadataStore.delete, bind, getCache, putCache in Hdel. cbn [disk cache] in Hdel.
  destruct (MetadataStore.save JSON_stringify now _) as [w1 [[] | e]] eqn:Hs;
    [| discriminate].
  injection Hdel as <-. apply save_Ok in Hs as (_ & _ & top1 & Ht1 & ->).
  cbn [disk] in Ht1. rewrite Hd in Ht1. injection Ht1 as <-.
  split; [| split].
  - unfold fs.access. rewrite stat_insert_ne by done. rewrite stat_insert_ne by done.
    simpl. rewrite lookup_insert_eq. by rewrite lookup_delete_eq.
  - unfold fs.access. rewrite stat_insert_ne by done.
    simpl. rewrite lookup_insert_eq. by rewrite lookup_delete_eq.
  - rewrite Hcache. apply lookup_delete_eq.
Qed.

End DeleteMore.

(** Deleting the record of [staleWorld]. *)
Lemma delete_success_witness :
  cache (Routes.deleteHandler stringifyCount 5000 "a" staleWorld).1 = ∅
  /\ Routes.deleteHandler stringifyCount 6000 "a"
       (Routes.deleteHandler stringifyCount 5000 "a" staleWorld).1
     = ((Routes.deleteHandler stringifyCount 5000 "a" staleWorld).1,
        Throw (AppError "File not found" 404)).
Proof.
  destruct (delete_success stringifyCount 5000 "a" staleWorld
              (Routes.deleteHandler stringifyCount 5000 "a" staleWorld).1)
    as (Hcache & _ & Hagain).
  - vm_compute. reflexivity.
  - split; [| apply Hagain]. rewrite Hcache. reflexivity.
Defined.

Lemma delete_removes_artifacts_witness :
  fs.access ["raw"; "a.jpg"]
      (disk (Routes.deleteHandler stringifyCount 5000 "a" staleWorld).1) = inl ENOENT
  /\ fs.access ["processed"; "u2.jpg"]
      (disk (Routes.deleteHandler stringifyCount 5000 "a" staleWorld).1) = inl ENOENT.
Proof.
  destruct (delete_removes_artifacts stringifyCount 5000 "a" staleWorld
              (Routes.deleteHandler stringifyCount 5000 "a" staleWorld).1
              staleRecord "a.jpg" "u2.jpg"
              (<["raw" := Dir (<["a.jpg" := File [Byte.xff; Byte.xd8; Byte.xff] 0]> ∅)]>
                 (<["processed" := Dir (<["u2.jpg" := File [Byte.xff; Byte.xd8; Byte.xff] 0]> ∅)]> ∅))
              (<["a.jpg" := File [Byte.xff; Byte.xd8; Byte.xff] 0]> ∅)
              (<["u2.jpg" := File [Byte.xff; Byte.xd8; Byte.xff] 0]> ∅)
              [Byte.xff; Byte.xd8; Byte.xff] [Byte.xff; Byte.xd8; Byte.xff] 0 0)
    as (Hr & Hp & _);
    [reflexivity | reflexivity | reflexivity | reflexivity | reflexivity
     | reflexivity | reflexivity | reflexivity | vm_compute; reflexivity |].
  split; [exact Hr | exact Hp].
Defined.

(** ** All routes *)

Section RoutesMore.

Import StorageService Routes.

Variable config : AppConfig.
Variable fromBuffer : list Byte.byte -> string + option string.
Variables extname parseName : string -> string.
Variable JSON_stringify : list ImageMetadata -> list Byte.byte.
Variable render : ImageProcessor.Sharp -> list Byte.byte
                  -> (string * option (list Byte.byte)) + (list Byte.byte * string).

Ltac run_handler :=
  unfold postUpload, uploadSingle, uploadHandler, validateFileSignature,
    processHandler, processImage, leftBehind,
    deleteHandler, storage_deleteFile, MetadataStore.set, MetadataStore.delete,
    MetadataStore.save, MetadataStore.get, try_catch, bind, getDisk, putDisk,
    getCache, putCache, await, ret, throw;
  repeat (case_match; simplify_eq/=).

(** The statuses of the handlers behind the limiters. *)
Lemma upload_status_handled (uuid : string) (now : Z) (part : option UploadedPart)
    (w : World) :
  uploadStatus
      (postUpload config fromBuffer extname parseName JSON_stringify uuid now part w).2
    ∈ [201; 400; 500; 507].
Proof. run_handler; set_solver. Qed.

Lemma process_status_handled (uuid : string) (now : Z) (body : ProcessRequest)
    (w : World) :
  processStatus (processHandler JSON_stringify render uuid now body w).2
    ∈ [200; 400; 404; 500].
Proof. run_handler; set_solver. Qed.


End RoutesMore.

(** ** The keys of the catalog *)

Section KeysAgree.

Import StorageService Routes.

Lemma keysAgree_insert (c : gmap string ImageMetadata) (k : string) (m : ImageMetadata) :
  fileId m = k -> keysAgree c -> keysAgree (<[k := m]> c).
Proof.
  intros Hk Hc k' m' [[<- <-] | [_ H]]%lookup_insert_Some; [done | by apply Hc].
Qed.

Lemma keysAgree_delete (c : gmap string ImageMetadata) (fid : string) :
  keysAgree c -> keysAgree (delete fid c).
Proof. intros Hc k m [_ H]%lookup_delete_Some. by apply Hc. Qed.

Variable config : AppConfig.
Variable fromBuffer : list Byte.byte -> string + option string.
Variables extname parseName : string -> string.
Variable JSON_stringify : list ImageMetadata -> list Byte.byte.
Variable JSON_parse : list Byte.byte -> option (list ImageMetadata).
Variable render : ImageProcessor.Sharp -> list Byte.byte
                  -> (string * option (list Byte.byte)) + (list Byte.byte * string).

Ltac run_routes :=
  unfold postUpload, uploadSingle, uploadHandler, validateFileSignature,
    processHandler, processImage, leftBehind,
    deleteHandler, storage_deleteFile, MetadataStore.set, MetadataStore.delete,
    MetadataStore.save, MetadataStore.get, try_catch, bind, getDisk, putDisk,
    getCache, putCache, await, ret, throw;
  repeat (case_match; simplify_eq/=).

(** X26. In every state the routes and the catalog can reach, each key of
    the catalog is the [fileId] of the record stored under it: a store
    constructed on any disk has the property, and uploads, processing
    requests, deletes and sweeps keep it, whether they succeed or fail. *)
Theorem keys_agree_invariant (uuid : string) (now ttlMs : Z)
    (part : option UploadedPart) (body : ProcessRequest) (fid : string)
    (d : node) (w : World) :
  keysAgree (cache (MetadataStore.create JSON_stringify JSON_parse now d).1)
  /\ (keysAgree (cache w) ->
      keysAgree (cache (postUpload config fromBuffer extname parseName JSON_stringify
                          uuid now part w).1)
      /\ keysAgree (cache (processHandler JSON_stringify render uuid now body w).1)
      /\ keysAgree (cache (deleteHandler JSON_stringify now fid w).1)
      /\ keysAgree (cache (MetadataStore.cleanup JSON_stringify now ttlMs w).1)).
Proof.
  assert (Hempty : keysAgree (∅ : gmap string ImageMetadata))
    by (intros k m; by rewrite lookup_empty).
  split.
  - unfold MetadataStore.create, MetadataStore.initialize, bind, getDisk, getCache, putCache.
    cbn [disk cache].
    destruct (fs.readFile _ d) as [[] | data]; try done.
    + pose proof (save_cache JSON_stringify now {| disk := d; cache := ∅ |}) as Hs.
      cbn [cache] in Hs. by rewrite Hs.
    + destruct (JSON_parse data) as [records |]; [| done].
      cbn [fst cache]. by apply loadAll_keysAgree.
  - intros Hw. split; [| split; [| split]].
    + run_routes; try done; by apply keysAgree_insert.
    + run_routes; try done.
      all: apply keysAgree_insert; [| done].
      all: cbn [fileId]; by apply Hw.
    + run_routes; try done; by apply keysAgree_delete.
    + rewrite cleanup_cache. intros k m Hk%sweep_subset. by apply Hw.
Qed.

End KeysAgree.

Lemma keys_agree_invariant_witness :
  keysAgree (cache (Routes.deleteHandler stringifyCount 7 "a" catWorld).1)
  /\ keysAgree (cache (Routes.processHandler stringifyCount echoRender "u2" 7 catRequest
                         catWorld).1).
Proof.
  assert (Hcat : keysAgree (cache catWorld)).
  { intros k m Hk. cbn [catWorld cache] in Hk.
    apply lookup_insert_Some in Hk as [[<- <-] | [_ H]]; [reflexivity |].
    by rewrite lookup_empty in H. }
  destruct (keys_agree_invariant defaultConfig (resolving pngSniffer) (fun _ => ".png")
              (fun _ => "u1")
              stringifyCount catSnapshotParse echoRender "u2" 7 0 None catRequest "a"
              smallDisk catWorld) as (_ & Hkeep).
  destruct (Hkeep Hcat) as (_ & Hprocess & Hdelete & _).
  split; [exact Hdelete | exact Hprocess].
Defined.

(** A list in which a conversion without a format follows a conversion
    to PNG: the route names the file [.png], the processor encodes
    JPEG. *)
Lemma route_extension_matches_encoder_witness :
  ImageProcessor.getExtensionFromFormat (foldl Routes.formatEntryStep "jpeg" [pngEntry])
    = ImageProcessor.ext_string "png"
  /\ ImageProcessor.encoderFormat (foldl ImageProcessor.formatStep (Some "jpeg") [pngEntry])
     = png
  /\ foldl Routes.formatEntryStep "jpeg" [pngEntry; bareConvert] = "png"
  /\ ImageProcessor.encoderFormat
       (foldl ImageProcessor.formatStep (Some "jpeg") [pngEntry; bareConvert]) = jpeg.
Proof.
  destruct (route_extension_matches_encoder [pngEntry] []) as (Hagree & _ & Hbare & _).
  split; [| split; [reflexivity |]].
  - rewrite Hagree; [reflexivity |].
    apply Forall_singleton. intros _. apply list_elem_of_In. simpl. tauto.
  - exact Hbare.
Defined.

Lemma getExtensionFromFormat_range_witness :
  exists ext,
    ImageProcessor.getExtensionFromFormat "bmp" = ImageProcessor.ext_string ext
    /\ ext = "jpg".
Proof.
  destruct (proj1 (getExtensionFromFormat_range "bmp")) as (ext & Hext & _ & Hjpg).
  - intros H. apply list_elem_of_In in H. simpl in H.
    repeat (destruct H as [H | H]; [discriminate H |]). destruct H.
  - exists ext. split; [exact Hext |]. apply Hjpg.
    intros H. apply list_elem_of_In in H. simpl in H.
    by destruct H as [H | [H | [H | []]]].
Defined.
